(** * generate.py: fixture data injected into index.html

    A shallow embedding of [src/generate.py] and of the parts of the Python
    standard library it calls ([str], [dict], [json], [re]), followed by the
    properties of the program.

    Conventions of the embedding.
    - A Python [str] is the list of its Unicode code points.
    - Python objects reachable from decoded JSON are the type [value]; a
      [dict] is the list of its items in insertion order.  Numbers are
      integers: JSON numbers with a fraction or an exponent (Python floats)
      are outside the model.
    - A Python expression that can raise is a [result]; statements are
      sequenced with [x <- e ;; k].
    - The Unicode tables for code points above 127 and the JSON decoder used
      on the persisted document are parameters of the development. *)

From Stdlib Require Import String Ascii.
From Stdlib Require Import List ZArith NArith Bool Lia.
From Stdlib Require Import DecimalN DecimalZ.
Import ListNotations.

(* ================================================================= *)
(** ** Python text *)

(** A character is its code point; a text is the list of its characters. *)
Abbreviation char := N (only parsing).
Abbreviation str := (list N) (only parsing).

(** Source literals are written as UTF-8 text and decoded to code points. *)
Fixpoint utf8_decode (bs : list N) : str :=
  match bs with
  | [] => []
  | b :: r =>
      if (b <? 128)%N then b :: utf8_decode r
      else if (b <? 224)%N then
        match r with
        | c1 :: r1 => ((b - 192) * 64 + (c1 - 128))%N :: utf8_decode r1
        | _ => []
        end
      else if (b <? 240)%N then
        match r with
        | c1 :: c2 :: r2 =>
            ((b - 224) * 4096 + (c1 - 128) * 64 + (c2 - 128))%N :: utf8_decode r2
        | _ => []
        end
      else
        match r with
        | c1 :: c2 :: c3 :: r3 =>
            ((b - 240) * 262144 + (c1 - 128) * 4096 + (c2 - 128) * 64 + (c3 - 128))%N
              :: utf8_decode r3
        | _ => []
        end
  end.

Definition py (s : string) : str :=
  utf8_decode (map N_of_ascii (list_ascii_of_string s)).

Fixpoint str_eqb (a b : str) : bool :=
  match a, b with
  | [], [] => true
  | x :: a', y :: b' => (x =? y)%N && str_eqb a' b'
  | _, _ => false
  end.

(** [s.startswith(p)] *)
Fixpoint startswith (s p : str) {struct p} : bool :=
  match p with
  | [] => true
  | y :: p' =>
      match s with
      | [] => false
      | x :: s' => (x =? y)%N && startswith s' p'
      end
  end.

Definition is_empty (s : str) : bool :=
  match s with [] => true | _ => false end.

(** [sep.join(parts)] *)
Fixpoint join (sep : str) (parts : list str) : str :=
  match parts with
  | [] => []
  | [p] => p
  | p :: rest => p ++ sep ++ join sep rest
  end.

(* ================================================================= *)
(** ** Exceptions and the error monad *)

Inductive exn :=
| KeyError | TypeError | AttributeError | IndexError
| JSONDecodeError | RecursionError
| URLError | OSError | FileNotFoundError
| ReError | UnicodeEncodeError
| NotModelled.
(** [NotModelled] is not an exception of Python: the decoder of this model
    answers it where [json.loads] builds a float, which [value] leaves out. *)

Inductive result (A : Type) :=
| Ok (a : A)
| Raise (e : exn).
Arguments Ok {A} a.
Arguments Raise {A} e.

Definition bind {A B} (c : result A) (k : A -> result B) : result B :=
  match c with
  | Ok a => k a
  | Raise e => Raise e
  end.

Notation "x <- c ;; k" := (bind c (fun x => k))
  (at level 61, c at next level, right associativity).
Notation "' p <- c ;; k" := (bind c (fun x => match x with p => k end))
  (at level 61, p pattern, c at next level, right associativity).

Section Loops.

Context {A B S : Type}.
Variable f : A -> result B.
Variable body : S -> A -> result S.

(** A [for] loop that builds a list: the first exception ends it. *)
Fixpoint mapM (l : list A) : result (list B) :=
  match l with
  | [] => Ok []
  | x :: r => y <- f x ;; ys <- mapM r ;; Ok (y :: ys)
  end.

(** A [for] loop that updates an accumulator. *)
Fixpoint for_each (l : list A) (s : S) : result S :=
  match l with
  | [] => Ok s
  | x :: r => s' <- body s x ;; for_each r s'
  end.

End Loops.

(* ================================================================= *)
(** ** Python objects *)

#[local] Unset Elimination Schemes.
Inductive value :=
| VNone
| VBool (b : bool)
| VInt (z : Z)
| VStr (s : str)
| VList (l : list value)
| VDict (d : list (value * value)).
#[local] Set Elimination Schemes.

Definition items := list (value * value).

(** Truth value of an object, as tested by [if], [not] and [or]. *)
Definition truthy (v : value) : bool :=
  match v with
  | VNone => false
  | VBool b => b
  | VInt z => negb (z =? 0)%Z
  | VStr s => negb (is_empty s)
  | VList l => match l with [] => false | _ => true end
  | VDict d => match d with [] => false | _ => true end
  end.

(** [a or b] *)
Definition py_or (a b : value) : value := if truthy a then a else b.

Definition hashable (v : value) : bool :=
  match v with
  | VList _ | VDict _ => false
  | _ => true
  end.

Definition int_of_bool (b : bool) : Z := if b then 1%Z else 0%Z.

(** Equality of dictionary keys: [True == 1] and [False == 0]; text only
    equals text; [None] only equals [None]. *)
Definition key_eqb (a b : value) : bool :=
  match a, b with
  | VNone, VNone => true
  | VBool x, VBool y => Bool.eqb x y
  | VBool x, VInt y => (int_of_bool x =? y)%Z
  | VInt x, VBool y => (x =? int_of_bool y)%Z
  | VInt x, VInt y => (x =? y)%Z
  | VStr x, VStr y => str_eqb x y
  | _, _ => false
  end.

Fixpoint dict_lookup (d : items) (k : value) : option value :=
  match d with
  | [] => None
  | (k', v) :: r => if key_eqb k' k then Some v else dict_lookup r k
  end.

(** [d[k] = v] on an item list: an equal key keeps its place (and the key
    object first inserted), a new key goes last. *)
Fixpoint dict_set (d : items) (k v : value) : items :=
  match d with
  | [] => [(k, v)]
  | (k', v') :: r =>
      if key_eqb k' k then (k', v) :: r else (k', v') :: dict_set r k v
  end.

(** [d[k] = v], raising on an unhashable key. *)
Definition dict_setitem (d : items) (k v : value) : result items :=
  if hashable k then Ok (dict_set d k v) else Raise TypeError.

(** [obj.get(k, default)] for an arbitrary key. *)
Definition py_get_key (obj k default : value) : result value :=
  match obj with
  | VDict d =>
      if hashable k then
        Ok (match dict_lookup d k with Some v => v | None => default end)
      else Raise TypeError
  | _ => Raise AttributeError
  end.

(** [obj.get("k", default)] with a literal key. *)
Definition py_get (obj : value) (k : string) (default : value) : result value :=
  py_get_key obj (VStr (py k)) default.

(** [obj["k"]] with a literal key. *)
Definition py_getitem (obj : value) (k : string) : result value :=
  match obj with
  | VDict d =>
      match dict_lookup d (VStr (py k)) with
      | Some v => Ok v
      | None => Raise KeyError
      end
  | _ => Raise TypeError
  end.

(** The sequence a [for] loop runs over. *)
Definition py_iter (v : value) : result (list value) :=
  match v with
  | VList l => Ok l
  | VDict d => Ok (map fst d)
  | VStr s => Ok (map (fun c => VStr [c]) s)
  | _ => Raise TypeError
  end.

(* ----------------------------------------------------------------- *)
(** *** Decimal text of integers *)

Definition digit_char (d : N) : char := (48 + d)%N.

Fixpoint uint_to_str (u : Decimal.uint) : str :=
  match u with
  | Decimal.Nil => []
  | Decimal.D0 r => digit_char 0 :: uint_to_str r
  | Decimal.D1 r => digit_char 1 :: uint_to_str r
  | Decimal.D2 r => digit_char 2 :: uint_to_str r
  | Decimal.D3 r => digit_char 3 :: uint_to_str r
  | Decimal.D4 r => digit_char 4 :: uint_to_str r
  | Decimal.D5 r => digit_char 5 :: uint_to_str r
  | Decimal.D6 r => digit_char 6 :: uint_to_str r
  | Decimal.D7 r => digit_char 7 :: uint_to_str r
  | Decimal.D8 r => digit_char 8 :: uint_to_str r
  | Decimal.D9 r => digit_char 9 :: uint_to_str r
  end.

(** [str(n)] for a natural number. *)
Definition N_to_str (n : N) : str := uint_to_str (N.to_uint n).

(** [str(z)] for an integer. *)
Definition Z_to_str (z : Z) : str :=
  match z with
  | Z0 => py "0"
  | Zpos p => N_to_str (Npos p)
  | Zneg p => py "-" ++ N_to_str (Npos p)
  end.

(** [str(v)] for a hashable object; lists and dictionaries are never
    converted by this program. *)
Definition py_str (v : value) : option str :=
  match v with
  | VNone => Some (py "None")
  | VBool true => Some (py "True")
  | VBool false => Some (py "False")
  | VInt z => Some (Z_to_str z)
  | VStr s => Some s
  | VList _ | VDict _ => None
  end.

(* ================================================================= *)
(** ** fmt_date *)

(** [fmt_date(s)]: [s] is whatever [m.get("startTime", "")] returned. *)
Definition fmt_date (s : value) : result str :=
  if negb (truthy s) then Ok []
  else
    match s with
    | VStr t =>
        if startswith t (py "0001") || startswith t (py "1901") then Ok []
        else Ok (firstn 16 t)
    | _ => Raise AttributeError
    end.

(* ================================================================= *)
(** ** transform_matches *)

(** Body of the inner loop: one match record. *)
Definition transform_match (m : value) : result value :=
  status <- py_get m "status" (VInt 5) ;;
  h <- py_get m "idHomeTeam" VNone ;;
  let home := py_or h (VInt (-1)) in
  a <- py_get m "idVisitorTeam" VNone ;;
  let away := py_or a (VInt (-1)) in
  st <- py_get m "startTime" (VStr []) ;;
  d <- fmt_date st ;;
  fo <- py_get m "field" VNone ;;
  let field := py_or fo (VDict []) in
  f <- (if truthy field
        then n <- py_get field "name" VNone ;; Ok (py_or n (VStr []))
        else Ok (VStr [])) ;;
  Ok (VDict [(VStr (py "h"), home); (VStr (py "v"), away);
             (VStr (py "d"), VStr d); (VStr (py "s"), status);
             (VStr (py "f"), f)]).

(** Body of the outer loop: one round. *)
Definition transform_jornada (jornada : value) : result value :=
  name <- py_get jornada "name" (VStr []) ;;
  group_id <- py_get jornada "idGroup" (VInt 0) ;;
  ms <- py_get jornada "matches" (VList []) ;;
  ml <- py_iter ms ;;
  matches <- mapM transform_match ml ;;
  Ok (VDict [(VStr (py "n"), name); (VStr (py "g"), group_id);
             (VStr (py "m"), VList matches)]).

Definition transform_matches (jornadas_data : value) : result value :=
  js <- py_iter jornadas_data ;;
  res <- mapM transform_jornada js ;;
  Ok (VList res).

(* ================================================================= *)
(** ** build_mt *)

Definition build_mt (tournament_data : value) : result value :=
  ts <- py_get tournament_data "teams" (VList []) ;;
  tl <- py_iter ts ;;
  mt <- for_each (fun mt team =>
                    n <- py_getitem team "name" ;;
                    i <- py_getitem team "id" ;;
                    dict_setitem mt i n) tl [] ;;
  Ok (VDict mt).

(* ================================================================= *)
(** ** json.dumps(value, ensure_ascii=False, separators=(',', ':')) *)

Definition hex_char (d : N) : char :=
  if (d <? 10)%N then (48 + d)%N else (87 + d)%N.

(** One character of a string literal: the quote, the backslash and the
    control characters are escaped, everything else is written as it is. *)
Definition escape_char (c : char) : str :=
  if (c =? 34)%N then py "\" ++ [34%N]
  else if (c =? 92)%N then py "\\"
  else if (c =? 10)%N then py "\n"
  else if (c =? 13)%N then py "\r"
  else if (c =? 9)%N then py "\t"
  else if (c =? 8)%N then py "\b"
  else if (c =? 12)%N then py "\f"
  else if (c <? 32)%N then py "\u00" ++ [hex_char (c / 16); hex_char (c mod 16)]
  else [c].

Definition encode_str (s : str) : str :=
  34%N :: flat_map escape_char s ++ [34%N].

(** A dictionary key as JSON writes it. *)
Definition key_text (k : value) : result str :=
  match k with
  | VStr s => Ok s
  | VInt z => Ok (Z_to_str z)
  | VBool true => Ok (py "true")
  | VBool false => Ok (py "false")
  | VNone => Ok (py "null")
  | VList _ | VDict _ => Raise TypeError
  end.

Fixpoint dumps (v : value) : result str :=
  match v with
  | VNone => Ok (py "null")
  | VBool true => Ok (py "true")
  | VBool false => Ok (py "false")
  | VInt z => Ok (Z_to_str z)
  | VStr s => Ok (encode_str s)
  | VList l =>
      parts <- mapM dumps l ;;
      Ok (py "[" ++ join (py ",") parts ++ py "]")
  | VDict d =>
      parts <- mapM (fun kv =>
                       kt <- key_text (fst kv) ;;
                       a <- dumps (snd kv) ;;
                       Ok (encode_str kt ++ py ":" ++ a)) d ;;
      Ok (py "{" ++ join (py ",") parts ++ py "}")
  end.

(** [js_const(name, value)] *)
Definition js_const (name : string) (v : value) : result str :=
  j <- dumps v ;;
  Ok (py "const " ++ py name ++ py "=" ++ j ++ py ";").

(* ================================================================= *)
(** ** json.loads, on texts whose numbers are integers *)

Definition is_ws (c : char) : bool :=
  (c =? 32)%N || (c =? 9)%N || (c =? 10)%N || (c =? 13)%N.

Fixpoint skip_ws (s : str) : str :=
  match s with
  | c :: r => if is_ws c then skip_ws r else s
  | [] => []
  end.

Definition is_digit (c : char) : bool := (48 <=? c)%N && (c <=? 57)%N.

Definition hex_val (c : char) : option N :=
  if is_digit c then Some (c - 48)%N
  else if (97 <=? c)%N && (c <=? 102)%N then Some (c - 87)%N
  else if (65 <=? c)%N && (c <=? 70)%N then Some (c - 55)%N
  else None.

Definition hex4 (a b c d : char) : option N :=
  match hex_val a, hex_val b, hex_val c, hex_val d with
  | Some x, Some y, Some z, Some w => Some (((x * 16 + y) * 16 + z) * 16 + w)%N
  | _, _, _, _ => None
  end.

Definition is_high_surrogate (u : N) : bool := (55296 <=? u)%N && (u <=? 56319)%N.
Definition is_low_surrogate (u : N) : bool := (56320 <=? u)%N && (u <=? 57343)%N.
Definition join_surrogates (hi lo : N) : N :=
  (65536 + (hi - 55296) * 1024 + (lo - 56320))%N.

(** The character a one-letter escape stands for. *)
Definition unescape (e : char) : option char :=
  if (e =? 34)%N then Some 34%N
  else if (e =? 92)%N then Some 92%N
  else if (e =? 47)%N then Some 47%N
  else if (e =? 98)%N then Some 8%N
  else if (e =? 102)%N then Some 12%N
  else if (e =? 110)%N then Some 10%N
  else if (e =? 114)%N then Some 13%N
  else if (e =? 116)%N then Some 9%N
  else None.

(** The body of a string literal, after its opening quote: the decoded
    text and what follows the closing quote. *)
Fixpoint scanstring (s : str) : result (str * str) :=
  match s with
  | [] => Raise JSONDecodeError
  | c :: r =>
      if (c =? 34)%N then Ok ([], r)
      else if (c =? 92)%N then
        match r with
        | [] => Raise JSONDecodeError
        | e :: r1 =>
            if (e =? 117)%N then
              match r1 with
              | h1 :: h2 :: h3 :: h4 :: r2 =>
                  match hex4 h1 h2 h3 h4 with
                  | None => Raise JSONDecodeError
                  | Some u =>
                      let alone := ' (t, rest) <- scanstring r2 ;; Ok (u :: t, rest) in
                      if is_high_surrogate u then
                        match r2 with
                        | b :: u' :: l1 :: l2 :: l3 :: l4 :: r3 =>
                            if (b =? 92)%N && (u' =? 117)%N then
                              match hex4 l1 l2 l3 l4 with
                              | None => Raise JSONDecodeError
                              | Some lo =>
                                  if is_low_surrogate lo then
                                    ' (t, rest) <- scanstring r3 ;;
                                    Ok (join_surrogates u lo :: t, rest)
                                  else alone
                              end
                            else alone
                        | _ => alone
                        end
                      else alone
                  end
              | _ => Raise JSONDecodeError
              end
            else
              match unescape e with
              | Some x => ' (t, rest) <- scanstring r1 ;; Ok (x :: t, rest)
              | None => Raise JSONDecodeError
              end
        end
      else if (c <? 32)%N then Raise JSONDecodeError
      else ' (t, rest) <- scanstring r ;; Ok (c :: t, rest)
  end.

Definition digit_of_char (c : char) (u : Decimal.uint) : Decimal.uint :=
  if (c =? 48)%N then Decimal.D0 u
  else if (c =? 49)%N then Decimal.D1 u
  else if (c =? 50)%N then Decimal.D2 u
  else if (c =? 51)%N then Decimal.D3 u
  else if (c =? 52)%N then Decimal.D4 u
  else if (c =? 53)%N then Decimal.D5 u
  else if (c =? 54)%N then Decimal.D6 u
  else if (c =? 55)%N then Decimal.D7 u
  else if (c =? 56)%N then Decimal.D8 u
  else Decimal.D9 u.

(** The longest run of digits at the head of [s]. *)
Fixpoint take_digits (s : str) : Decimal.uint * str :=
  match s with
  | c :: r =>
      if is_digit c
      then let (u, rest) := take_digits r in (digit_of_char c u, rest)
      else (Decimal.Nil, s)
  | [] => (Decimal.Nil, [])
  end.

(** The integer part of a number: a lone [0], or digits not starting
    with [0]. *)
Definition scan_natural (s : str) : result (N * str) :=
  match s with
  | c :: r =>
      if (c =? 48)%N then Ok (0%N, r)
      else if is_digit c then let (u, rest) := take_digits s in Ok (N.of_uint u, rest)
      else Raise JSONDecodeError
  | [] => Raise JSONDecodeError
  end.

(** Does a fraction or an exponent follow the integer part?  Such a number
    is a float. *)
Definition float_follows (s : str) : bool :=
  match s with
  | c :: d :: r =>
      if (c =? 46)%N then is_digit d
      else if (c =? 101)%N || (c =? 69)%N then
        is_digit d
        || (((d =? 43)%N || (d =? 45)%N)
            && match r with x :: _ => is_digit x | [] => false end)
      else false
  | _ => false
  end.

(** [dict(pairs)]: a repeated key keeps its first place and its last
    value. *)
Definition dict_of_pairs (pairs : list (str * value)) : items :=
  fold_left (fun d kv => dict_set d (VStr (fst kv)) (snd kv)) pairs [].

(** A number at the head of [s]. *)
Definition scan_number (s : str) : result (value * str) :=
  match s with
  | c :: r =>
      if (c =? 45)%N then
        if startswith r (py "Infinity") then Raise NotModelled
        else
          ' (n, rest) <- scan_natural r ;;
          if float_follows rest then Raise NotModelled
          else Ok (VInt (- Z.of_N n), rest)
      else
        ' (n, rest) <- scan_natural s ;;
        if float_follows rest then Raise NotModelled
        else Ok (VInt (Z.of_N n), rest)
  | [] => Raise JSONDecodeError
  end.

(** The scanner.  [fuel] bounds the nested calls; [json_loads] gives it more
    than a text of that length can use, so [RecursionError] stands for a
    limit that is never met (the recursion limit of the interpreter is not
    modelled).
    - [scan_once]: one value at the head of [s];
    - [parse_elems]: the elements of an array, after [[] and white space,
      when the array is not empty;
    - [parse_members]: the members of an object, after [{] and white space,
      when the object is not empty. *)
Fixpoint scan_once (fuel : nat) (s : str) {struct fuel} : result (value * str) :=
  match fuel with
  | O => Raise RecursionError
  | S f =>
      match s with
      | [] => Raise JSONDecodeError
      | c :: r =>
          if (c =? 34)%N then
            ' (t, rest) <- scanstring r ;; Ok (VStr t, rest)
          else if (c =? 123)%N then
            match skip_ws r with
            | c' :: r' =>
                if (c' =? 125)%N then Ok (VDict [], r')
                else
                  ' (ps, rest) <- parse_members f (skip_ws r) ;;
                  Ok (VDict (dict_of_pairs ps), rest)
            | [] => Raise JSONDecodeError
            end
          else if (c =? 91)%N then
            match skip_ws r with
            | c' :: r' =>
                if (c' =? 93)%N then Ok (VList [], r')
                else
                  ' (vs, rest) <- parse_elems f (skip_ws r) ;;
                  Ok (VList vs, rest)
            | [] => Raise JSONDecodeError
            end
          else if startswith s (py "null") then Ok (VNone, skipn 4 s)
          else if startswith s (py "true") then Ok (VBool true, skipn 4 s)
          else if startswith s (py "false") then Ok (VBool false, skipn 5 s)
          else if startswith s (py "NaN") then Raise NotModelled
          else if startswith s (py "Infinity") then Raise NotModelled
          else scan_number s
      end
  end
with parse_elems (fuel : nat) (s : str) {struct fuel} : result (list value * str) :=
  match fuel with
  | O => Raise RecursionError
  | S f =>
      ' (v, r1) <- scan_once f s ;;
      match skip_ws r1 with
      | c :: r2 =>
          if (c =? 93)%N then Ok ([v], r2)
          else if (c =? 44)%N then
            ' (vs, rest) <- parse_elems f (skip_ws r2) ;;
            Ok (v :: vs, rest)
          else Raise JSONDecodeError
      | [] => Raise JSONDecodeError
      end
  end
with parse_members (fuel : nat) (s : str) {struct fuel}
  : result (list (str * value) * str) :=
  match fuel with
  | O => Raise RecursionError
  | S f =>
      match s with
      | q :: r =>
          if (q =? 34)%N then
            ' (k, r1) <- scanstring r ;;
            match skip_ws r1 with
            | c :: r2 =>
                if (c =? 58)%N then
                  ' (v, r3) <- scan_once f (skip_ws r2) ;;
                  match skip_ws r3 with
                  | c' :: r4 =>
                      if (c' =? 125)%N then Ok ([(k, v)], r4)
                      else if (c' =? 44)%N then
                        ' (ps, rest) <- parse_members f (skip_ws r4) ;;
                        Ok ((k, v) :: ps, rest)
                      else Raise JSONDecodeError
                  | [] => Raise JSONDecodeError
                  end
                else Raise JSONDecodeError
            | [] => Raise JSONDecodeError
            end
          else Raise JSONDecodeError
      | [] => Raise JSONDecodeError
      end
  end.

(** [json.loads(s)] *)
Definition json_loads (s : str) : result value :=
  ' (v, rest) <- scan_once (2 * length s + 1) (skip_ws s) ;;
  if is_empty (skip_ws rest) then Ok v else Raise JSONDecodeError.

(* ================================================================= *)
(** ** The fragment of [re] the program uses

    The two patterns of the program are sequences of literal text, the lazy
    [.*?] (under [re.DOTALL], so it crosses line ends) and a lookahead for
    literal text. *)

Inductive atom :=
| Lit (l : str)       (* literal text *)
| LazyAny             (* .*? *)
| Ahead (l : str).    (* (?=literal) *)

Definition regex := list atom.

(** The lazy [.*?]: the rest of the pattern, [k], is tried after 0, 1, 2, ...
    characters, and the first success is the match. *)
Fixpoint lazy_any (k : bool -> str -> option (list str)) (adv : bool)
  (taken s : str) {struct s} : option (list str) :=
  match k adv s with
  | Some ps => Some (rev taken :: ps)
  | None =>
      match s with
      | [] => None
      | c :: r => lazy_any k false (c :: taken) r
      end
  end.

(** A match of [p] at the head of [s], by backtracking: the text each atom
    consumed.  With [adv] set, the empty match is refused (the engine's
    must-advance flag after an empty match). *)
Fixpoint match_here (adv : bool) (p : regex) (s : str) {struct p}
  : option (list str) :=
  match p with
  | [] => if adv then None else Some []
  | Lit l :: q =>
      if startswith s l
      then option_map (cons l)
             (match_here (adv && is_empty l) q (skipn (length l) s))
      else None
  | Ahead l :: q =>
      if startswith s l then option_map (cons []) (match_here adv q s) else None
  | LazyAny :: q => lazy_any (fun adv s => match_here adv q s) adv [] s
  end.

(** The leftmost match in [s]: the text before it, the pieces matched and
    the text after it. *)
Fixpoint search_from (adv : bool) (p : regex) (skipped s : str) {struct s}
  : option (str * list str * str) :=
  match match_here adv p s with
  | Some ps => Some (rev skipped, ps, skipn (length (concat ps)) s)
  | None =>
      match s with
      | [] => None
      | c :: r => search_from false p (c :: skipped) r
      end
  end.

(** [re.search(p, s)] *)
Definition re_search (p : regex) (s : str) : option (str * list str * str) :=
  search_from false p [] s.

(* ----------------------------------------------------------------- *)
(** *** Replacement templates

    [re.sub] reads its replacement text as a template before it searches:
    a backslash introduces an escape.  The pattern replaced by this program
    has no group, so the only group a template may name is group 0, the
    whole match. *)

Inductive tpart :=
| TLit (c : str)
| TWhole.

Definition is_octal (c : char) : bool := (48 <=? c)%N && (c <=? 55)%N.

Definition is_ascii_letter (c : char) : bool :=
  ((97 <=? c)%N && (c <=? 122)%N) || ((65 <=? c)%N && (c <=? 90)%N).

(** The escapes that stand for one character. *)
Definition template_escape (c : char) : option char :=
  if (c =? 97)%N then Some 7%N
  else if (c =? 98)%N then Some 8%N
  else if (c =? 102)%N then Some 12%N
  else if (c =? 110)%N then Some 10%N
  else if (c =? 114)%N then Some 13%N
  else if (c =? 116)%N then Some 9%N
  else if (c =? 118)%N then Some 11%N
  else if (c =? 92)%N then Some 92%N
  else None.

(** The text up to the first [>], if there is one. *)
Fixpoint getuntil_gt (s : str) : option str :=
  match s with
  | [] => None
  | c :: r =>
      if (c =? 62)%N then Some []
      else option_map (cons c) (getuntil_gt r)
  end.

Definition octal_val (c : char) : N := (c - 48)%N.

(** The parts of a template.  After a group name has been read, [skip] is
    the number of characters of it still to pass over. *)
Fixpoint parse_template (skip : nat) (t : str) {struct t}
  : result (list tpart) :=
  match t with
  | [] => Ok []
  | c :: r =>
      match skip with
      | S k => parse_template k r
      | O =>
          if negb (c =? 92)%N then
            ps <- parse_template 0 r ;; Ok (TLit [c] :: ps)
          else
            match r with
            | [] => Raise ReError                     (* bad escape (end of pattern) *)
            | e :: r1 =>
                if (e =? 103)%N then                  (* \g<name> *)
                  match r1 with
                  | lt :: r2 =>
                      if (lt =? 60)%N then
                        match getuntil_gt r2 with
                        | Some name =>
                            if negb (is_empty name)
                               && forallb (fun d => (d =? 48)%N) name
                            then ps <- parse_template (S (length name)) r2 ;;
                                 Ok (TWhole :: ps)
                            else Raise ReError        (* no such group, or a bad name *)
                        | None => Raise ReError       (* missing > *)
                        end
                      else Raise ReError              (* missing < *)
                  | [] => Raise ReError
                  end
                else if (e =? 48)%N then              (* \0, \0o, \0oo *)
                  match r1 with
                  | o1 :: r2 =>
                      if is_octal o1 then
                        match r2 with
                        | o2 :: r3 =>
                            if is_octal o2 then
                              ps <- parse_template 0 r3 ;;
                              Ok (TLit [(octal_val o1 * 8 + octal_val o2)%N] :: ps)
                            else
                              ps <- parse_template 0 r2 ;;
                              Ok (TLit [octal_val o1] :: ps)
                        | [] => Ok [TLit [octal_val o1]]
                        end
                      else ps <- parse_template 0 r1 ;; Ok (TLit [0%N] :: ps)
                  | [] => Ok [TLit [0%N]]
                  end
                else if is_digit e then               (* \1 ... \9 *)
                  match r1 with
                  | d2 :: d3 :: r3 =>
                      if is_octal e && is_octal d2 && is_octal d3 then
                        let o := ((octal_val e * 8 + octal_val d2) * 8 + octal_val d3)%N in
                        if (255 <? o)%N then Raise ReError
                        else ps <- parse_template 0 r3 ;; Ok (TLit [o] :: ps)
                      else Raise ReError              (* invalid group reference *)
                  | _ => Raise ReError                (* invalid group reference *)
                  end
                else
                  match template_escape e with
                  | Some x => ps <- parse_template 0 r1 ;; Ok (TLit [x] :: ps)
                  | None =>
                      if is_ascii_letter e then Raise ReError   (* bad escape *)
                      else ps <- parse_template 0 r1 ;; Ok (TLit [c; e] :: ps)
                  end
            end
      end
  end.

Definition expand_template (ps : list tpart) (whole : str) : str :=
  flat_map (fun p => match p with TLit c => c | TWhole => whole end) ps.

(** The text after its first character. *)
Definition behead (s : str) : str :=
  match s with
  | _ :: r => r
  | [] => []
  end.

(** The replacement loop, one position of the text at a time.  [skip] is
    the number of characters that still belong to the match just replaced.
    Where the pattern matches, the replacement is written and the matched
    text passed over; after an empty match the engine must advance: only a
    non-empty match is taken at the same position.  Where it does not
    match, the character is kept. *)
Fixpoint sub_walk (p : regex) (repl : str -> str) (skip : nat) (s : str)
  {struct s} : str :=
  match skip with
  | S k =>
      match s with
      | _ :: r => sub_walk p repl k r
      | [] => []
      end
  | O =>
      let keep :=
        match s with
        | c :: r => c :: sub_walk p repl 0 r
        | [] => []
        end in
      let pass n :=
        match s with
        | _ :: r => sub_walk p repl n r
        | [] => []
        end in
      match match_here false p s with
      | None => keep
      | Some ps =>
          let m := concat ps in
          match length m with
          | S k => repl m ++ pass k
          | O =>
              repl m ++
              match match_here true p s with
              | None => keep
              | Some ps' =>
                  let m' := concat ps' in
                  match length m' with
                  | S k => repl m' ++ pass k
                  | O => keep
                  end
              end
          end
      end
  end.

(** [re.sub(p, repl, s)] for a pattern without groups. *)
Definition re_sub (p : regex) (repl s : str) : result str :=
  tp <- parse_template 0 repl ;;
  Ok (sub_walk p (expand_template tp) 0 s).

(* ================================================================= *)
(** ** The program *)

Section Generate.

(** The Unicode character tables for code points above 127: white space,
    and the upper-case text of a character. *)
Variable unicode_isspace : char -> bool.
Variable unicode_upper : char -> str.

(** The JSON decoder applied to the mapping persisted in the document. *)
Variable loads : str -> result value.

(* ----------------------------------------------------------------- *)
(** *** str.strip, str.upper, indexing *)

Definition isspace (c : char) : bool :=
  if (c <? 128)%N
  then ((9 <=? c)%N && (c <=? 13)%N) || ((28 <=? c)%N && (c <=? 32)%N)
  else unicode_isspace c.

Fixpoint lstrip (s : str) : str :=
  match s with
  | c :: r => if isspace c then lstrip r else s
  | [] => []
  end.

(** [s.strip()] *)
Definition strip (s : str) : str := rev (lstrip (rev (lstrip s))).

Definition upper_char (c : char) : str :=
  if (c <? 128)%N
  then if (97 <=? c)%N && (c <=? 122)%N then [(c - 32)%N] else [c]
  else unicode_upper c.

(** [s.upper()] *)
Definition upper (s : str) : str := flat_map upper_char s.

(** [s[-1]] *)
Definition last_char (s : str) : result str :=
  match rev s with
  | c :: _ => Ok [c]
  | [] => Raise IndexError
  end.

(* ----------------------------------------------------------------- *)
(** *** build_pt *)

Definition valid_letters : list str := [py "A"; py "B"; py "C"; py "D"].

(** Lines 85-87: the group letter of a display name. *)
Definition group_letter (gname : value) : result str :=
  match gname with
  | VStr name =>
      gletter <- (if negb (is_empty (strip name))
                  then c <- last_char (strip name) ;; Ok (upper c)
                  else Ok (py "A")) ;;
      Ok (if existsb (str_eqb gletter) valid_letters then gletter else py "A")
  | _ => Raise AttributeError
  end.

(** The entry stored for a team. *)
Definition pt_entry (name g : value) : value :=
  VDict [(VStr (py "n"), name); (VStr (py "g"), g)].

(** Lines 83-87: the letter of a group entry. *)
Definition group_letter_of (group : value) : result str :=
  gname <- py_get group "name" (VStr []) ;;
  group_letter gname.

(** Lines 88-89: the teams of a group are stored under its letter. *)
Definition add_teams (gletter : str) (group : value) (pt : items) : result items :=
  ts <- py_get group "teams" (VList []) ;;
  tl <- py_iter ts ;;
  for_each (fun pt team =>
              n <- py_getitem team "name" ;;
              i <- py_getitem team "id" ;;
              dict_setitem pt i (pt_entry n (VStr gletter))) tl pt.

(** Lines 82-89: the body of the loop over the groups. *)
Definition add_group (pt : items) (group : value) : result items :=
  gletter <- group_letter_of group ;;
  add_teams gletter group pt.

(** Lines 74-79: the first non-empty groups structure. *)
Definition find_groups (tournament_data : value) : result value :=
  g1 <- py_get tournament_data "groups" VNone ;;
  if truthy g1 then Ok g1 else
  g2 <- py_get tournament_data "roundGroups" VNone ;;
  if truthy g2 then Ok g2 else
  g3 <- py_get tournament_data "groupsRounds" VNone ;;
  if truthy g3 then Ok g3 else Ok (VList []).

(** Lines 71-89: the mapping read from the groups structure. *)
Definition from_groups (tournament_data : value) : result items :=
  groups <- find_groups tournament_data ;;
  if truthy groups
  then gl <- py_iter groups ;; for_each add_group gl []
  else Ok [].

(** Lines 95-99: the group a team had in the persisted mapping. *)
Definition previous_group (existing_pt tid : value) : result value :=
  if truthy existing_pt then
    e1 <- py_get_key existing_pt tid VNone ;;
    entry <- (if truthy e1 then Ok e1
              else match py_str tid with
                   | Some t => py_get_key existing_pt (VStr t) VNone
                   | None => Raise TypeError
                   end) ;;
    if truthy entry then
      match entry with
      | VDict _ => py_get entry "g" (VStr (py "A"))
      | _ => Ok (VStr (py "A"))
      end
    else Ok (VStr (py "A"))
  else Ok (VStr (py "A")).

(** Lines 94-100: the body of the fallback loop. *)
Definition add_fallback (existing_pt : value) (pt : items) (team : value)
  : result items :=
  tid <- py_getitem team "id" ;;
  g <- previous_group existing_pt tid ;;
  n <- py_getitem team "name" ;;
  dict_setitem pt tid (pt_entry n g).

(** Lines 93-100: the mapping rebuilt from the flat teams list. *)
Definition fallback (tournament_data existing_pt : value) : result items :=
  ts <- py_get tournament_data "teams" (VList []) ;;
  tl <- py_iter ts ;;
  for_each (add_fallback existing_pt) tl [].

Definition build_pt (tournament_data existing_pt : value) : result value :=
  pt <- from_groups tournament_data ;;
  pt <- (if negb (truthy (VDict pt))
         then fallback tournament_data existing_pt
         else Ok pt) ;;
  Ok (VDict pt).

(* ----------------------------------------------------------------- *)
(** *** extract_existing_pt *)

(** [const PT=(\{.*?\});] *)
Definition pt_pattern : regex :=
  [Lit (py "const PT="); Lit (py "{"); LazyAny; Lit (py "}"); Lit (py ";")].

(** [m.group(1)] of a match of [pt_pattern]. *)
Definition group1 (pieces : list str) : str := concat (firstn 3 (skipn 1 pieces)).

Definition extract_existing_pt (html : str) : value :=
  match re_search pt_pattern html with
  | Some (_, pieces, _) =>
      match loads (group1 pieces) with
      | Ok v => v
      | Raise _ => VDict []
      end
  | None => VDict []
  end.

(* ----------------------------------------------------------------- *)
(** *** main *)

Definition BASE : str := py "https://tusligascanarias.mygol.es/api".

Definition url_mini_raw : str := BASE ++ py "/matches/fortournament/85".
Definition url_pre_raw : str := BASE ++ py "/matches/fortournament/87".
Definition url_mini_t : str := BASE ++ py "/tournaments/85".
Definition url_pre_t : str := BASE ++ py "/tournaments/87".

(** [const MINI_MATCHES=.*?(?=// ── STATE)] *)
Definition rounds_intro : str := py "const MINI_MATCHES=".
Definition state_marker : str := py "// ── STATE".
Definition rounds_pattern : regex :=
  [Lit rounds_intro; LazyAny; Ahead state_marker].

Definition static_teams_line : str :=
  py "// ── STATIC TEAMS ──────────────────────────────────────────".

(** What a run starts from: the answer of the API to each request (the
    decoded document, or the exception [fetch] raises) and the text of
    [index.html], if the file exists. *)
Record world := {
  api : str -> result value;
  index_html : option str
}.

Inductive event :=
| Stdout                       (* a progress message *)
| Stderr                       (* an error message or a traceback *)
| Fetch (url : str)
| OpenRead                     (* open("index.html", "r") *)
| OpenWrite                    (* open("index.html", "w"): the file is emptied *)
| Write (content : str).

Record outcome := {
  exit_status : Z;
  disk : option str;
  trace : list event
}.

(** Lines 123-126: the four requests, in order, up to the first failure. *)
Definition fetch_all (w : world)
  : list event * result (value * value * value * value) :=
  match api w url_mini_raw with
  | Raise e => ([Fetch url_mini_raw], Raise e)
  | Ok mini_raw =>
  match api w url_pre_raw with
  | Raise e => ([Fetch url_mini_raw; Fetch url_pre_raw], Raise e)
  | Ok pre_raw =>
  match api w url_mini_t with
  | Raise e => ([Fetch url_mini_raw; Fetch url_pre_raw; Fetch url_mini_t], Raise e)
  | Ok mini_t =>
  match api w url_pre_t with
  | Raise e =>
      ([Fetch url_mini_raw; Fetch url_pre_raw; Fetch url_mini_t; Fetch url_pre_t],
       Raise e)
  | Ok pre_t =>
      ([Fetch url_mini_raw; Fetch url_pre_raw; Fetch url_mini_t; Fetch url_pre_t],
       Ok (mini_raw, pre_raw, mini_t, pre_t))
  end end end end.

(** Lines 137-160: from the fetched data and the text of the document to
    the text after the substitution. *)
Definition substitute (mini_raw pre_raw mini_t pre_t : value) (html : str)
  : result str :=
  let existing_pt := extract_existing_pt html in
  mini_matches <- transform_matches mini_raw ;;
  pre_matches <- transform_matches pre_raw ;;
  mt <- build_mt mini_t ;;
  pt <- build_pt pre_t existing_pt ;;
  c1 <- js_const "MINI_MATCHES" mini_matches ;;
  c2 <- js_const "PRE_MATCHES" pre_matches ;;
  c3 <- js_const "MT" mt ;;
  c4 <- js_const "PT" pt ;;
  let new_data := join [10%N] [c1; c2; []; static_teams_line; c3; c4; []] in
  re_sub rounds_pattern (new_data ++ [10%N]) html.

(** Text that UTF-8 can encode holds no surrogate code point. *)
Definition encodable (s : str) : bool :=
  forallb (fun c => negb ((55296 <=? c)%N && (c <=? 57343)%N)) s.

Definition main (w : world) : outcome :=
  let stop tr :=
    {| exit_status := 1; disk := index_html w; trace := Stdout :: tr |} in
  match fetch_all w with
  | (fetches, Raise _) => stop (fetches ++ [Stderr])
  | (fetches, Ok (mini_raw, pre_raw, mini_t, pre_t)) =>
      match index_html w with
      | None => stop (fetches ++ [OpenRead; Stderr])
      | Some html =>
          match substitute mini_raw pre_raw mini_t pre_t html with
          | Raise _ => stop (fetches ++ [OpenRead; Stderr])
          | Ok new_html =>
              if str_eqb new_html html
              then stop (fetches ++ [OpenRead; Stderr])
              else if encodable new_html
              then {| exit_status := 0;
                      disk := Some new_html;
                      trace := Stdout :: fetches
                                 ++ [OpenRead; OpenWrite; Write new_html; Stdout] |}
              else {| exit_status := 1;
                      disk := Some [];
                      trace := Stdout :: fetches ++ [OpenRead; OpenWrite; Stderr] |}
          end
      end
  end.


(* ================================================================= *)
(** * Vocabulary of the properties *)

(** [p] is the beginning of [s]. *)
Definition begins_with (p s : str) : Prop := exists rest, s = p ++ rest.

(** The key [k] is missing from a JSON object. *)
Definition absent (d : items) (k : string) : Prop :=
  dict_lookup d (VStr (py k)) = None.

(** The value under [k], or [default] when the key is missing. *)
Definition get_or (d : items) (k : string) (default : value) : value :=
  match dict_lookup d (VStr (py k)) with
  | Some v => v
  | None => default
  end.

Definition is_text (v : value) : bool :=
  match v with VStr _ => true | _ => false end.

Definition is_dict (v : value) : bool :=
  match v with VDict _ => true | _ => false end.

(** A match record whose optional fields are missing or of the documented
    type: the start time, when given, is null, empty or a text; the field,
    when given, is null, empty or an object. *)
Definition match_ok (m : value) : bool :=
  match m with
  | VDict d =>
      let st := get_or d "startTime" (VStr []) in
      let fo := get_or d "field" VNone in
      (negb (truthy st) || is_text st) && (negb (truthy fo) || is_dict fo)
  | _ => false
  end.

(** A round object: its matches, when given, are a list of such records. *)
Definition round_ok (r : value) : bool :=
  match r with
  | VDict jd =>
      match get_or jd "matches" (VList []) with
      | VList ms => forallb match_ok ms
      | _ => false
      end
  | _ => false
  end.

(** The compact record of a match. *)
Definition match_record (h v : value) (d : str) (s f : value) : value :=
  VDict [(VStr (py "h"), h); (VStr (py "v"), v); (VStr (py "d"), VStr d);
         (VStr (py "s"), s); (VStr (py "f"), f)].

(** The compact record of a round. *)
Definition round_record (n g : value) (ms : list value) : value :=
  VDict [(VStr (py "n"), n); (VStr (py "g"), g); (VStr (py "m"), VList ms)].

(** [r] is the compact record of the match [m], with the documented default
    in the place of every missing field. *)
Definition match_defaults (m r : value) : Prop :=
  exists md h v d s f,
    m = VDict md /\ r = match_record h v d s f /\
    (absent md "status" -> s = VInt 5) /\
    (absent md "idHomeTeam" -> h = VInt (-1)) /\
    (absent md "idVisitorTeam" -> v = VInt (-1)) /\
    (absent md "startTime" -> d = []) /\
    (absent md "field" -> f = VStr []) /\
    (forall fd, get_or md "field" VNone = VDict fd -> absent fd "name" ->
                f = VStr []).

(** [o] is the compact record of the round [r], with the documented default
    in the place of every missing field and one record per match, in
    order. *)
Definition round_defaults (r o : value) : Prop :=
  exists jd ms n g out,
    r = VDict jd /\ get_or jd "matches" (VList []) = VList ms /\
    o = round_record n g out /\
    (absent jd "name" -> n = VStr []) /\
    (absent jd "idGroup" -> g = VInt 0) /\
    Forall2 match_defaults ms out.

(** An entry of the grouped mapping whose group is one of the four
    letters. *)
Definition letter_entry (e : value) : Prop :=
  exists n g, e = pt_entry n (VStr g) /\ In g valid_letters.

(** The tournament object has no groups structure: each of the three fields
    is missing, null or empty. *)
Definition no_groups (td : items) : Prop :=
  truthy (get_or td "groups" VNone) = false /\
  truthy (get_or td "roundGroups" VNone) = false /\
  truthy (get_or td "groupsRounds" VNone) = false.

(** A team record: an object with a name and an id that can be a key. *)
Definition team_ok (t : value) : bool :=
  match t with
  | VDict d =>
      match dict_lookup d (VStr (py "id")), dict_lookup d (VStr (py "name")) with
      | Some i, Some _ => hashable i
      | _, _ => false
      end
  | _ => false
  end.

Definition team_id (t : value) : value :=
  match t with VDict d => get_or d "id" VNone | _ => VNone end.

Definition team_name (t : value) : value :=
  match t with VDict d => get_or d "name" VNone | _ => VNone end.

(** The entry the previous mapping holds for a key, if it is usable: present
    and not empty. *)
Definition found (prev : items) (k e : value) : Prop :=
  dict_lookup prev k = Some e /\ truthy e = true.

Definition not_found (prev : items) (k : value) : Prop :=
  forall e, dict_lookup prev k = Some e -> truthy e = false.

(** The group read from a persisted entry: its letter when the entry is an
    object (or "A" when the object has none), "A" otherwise. *)
Definition group_of_entry (e : value) : value :=
  match e with
  | VDict ed => get_or ed "g" (VStr (py "A"))
  | _ => VStr (py "A")
  end.

(** The mapping [acc] built from the teams [seen] by the fallback: every
    team seen is a key of it, and every entry is the name of a team seen
    with the group of its previous assignment. *)
Definition fallback_inv (ex : value) (seen : list value) (acc : items) : Prop :=
  (forall t, In t seen -> exists e, dict_lookup acc (team_id t) = Some e) /\
  (forall k e, In (k, e) acc ->
     exists t g, In t seen /\ key_eqb k (team_id t) = true /\
                 previous_group ex (team_id t) = Ok g /\
                 e = pt_entry (team_name t) g).


(* ----------------------------------------------------------------- *)
(** ** Sample inputs *)

(** Tables for a run in which no code point above 127 is white space or
    changes in upper case. *)
Definition ascii_space_only (c : char) : bool := false.
Definition ascii_upper_only (c : char) : str := [c].

Definition team (id : Z) (name : string) : value :=
  VDict [(VStr (py "id"), VInt id); (VStr (py "name"), VStr (py name))].

(** A tournament without groups structure and one team, and a persisted
    mapping that gives this team a letter outside A-D. *)
Definition tournament_one_team : value :=
  VDict [(VStr (py "teams"), VList [team 5 "X"])].

Definition persisted_Z : value :=
  VDict [(VStr (py "5"), pt_entry (VStr (py "X")) (VStr (py "Z")))].

(** The document holds the rounds introducer followed, somewhere, by the
    marker of the next section. *)
Definition has_anchors (html : str) : Prop :=
  exists a b c, html = a ++ rounds_intro ++ b ++ state_marker ++ c.

(** The run touches the document. *)
Definition touches_file (ev : event) : bool :=
  match ev with
  | OpenRead | OpenWrite | Write _ => true
  | _ => false
  end.

Definition writes_file (ev : event) : bool :=
  match ev with
  | OpenWrite | Write _ => true
  | _ => false
  end.

(** One of the four requests fails. *)
Definition fetch_fails (w : world) : Prop :=
  exists url e,
    In url [url_mini_raw; url_pre_raw; url_mini_t; url_pre_t] /\
    api w url = Raise e.

(* ----------------------------------------------------------------- *)
(** ** Vocabulary of the round trip *)

(** A structure [json.dumps] accepts: every key is [None], a boolean, an
    integer or a text. *)
Fixpoint jsonable (v : value) : bool :=
  match v with
  | VList l => forallb jsonable l
  | VDict d => forallb (fun kv => hashable (fst kv) && jsonable (snd kv)) d
  | _ => true
  end.

(** The text JSON writes for a key. *)
Definition key_str (k : value) : str :=
  match key_text k with
  | Ok s => s
  | Raise _ => []
  end.

(** The structure as JSON holds it: every key is replaced by its text. *)
Fixpoint as_json (v : value) : value :=
  match v with
  | VList l => VList (map as_json l)
  | VDict d =>
      VDict (dict_of_pairs
               (map (fun kv => (key_str (fst kv), as_json (snd kv))) d))
  | _ => v
  end.

(** No two of the keys are equal. *)
Fixpoint distinct_keys (ks : list value) : bool :=
  match ks with
  | [] => true
  | k :: r => negb (existsb (key_eqb k) r) && distinct_keys r
  end.

(** A structure whose keys are texts, no two equal in one object. *)
Fixpoint text_keyed (v : value) : bool :=
  match v with
  | VList l => forallb text_keyed l
  | VDict d =>
      forallb (fun kv => is_text (fst kv) && text_keyed (snd kv)) d
      && distinct_keys (map fst d)
  | _ => true
  end.

(** Calls of the scanner that reading the JSON text of [v] takes. *)
Fixpoint cost (v : value) : nat :=
  match v with
  | VList l => S (fold_right (fun x n => S (cost x + n)) 0 l)
  | VDict d => S (fold_right (fun kv n => S (cost (snd kv) + n)) 0 d)
  | _ => 1
  end.

(** The characters a JSON value written by [dumps] can begin with. *)
Definition value_start (c : char) : bool :=
  (c =? 34)%N || (c =? 123)%N || (c =? 91)%N || (c =? 110)%N
  || (c =? 116)%N || (c =? 102)%N || (c =? 45)%N || is_digit c.

Definition starts_with_digit (s : str) : bool :=
  match s with c :: _ => is_digit c | [] => false end.

(** What can follow a value inside a JSON text: the end of the text, a
    comma or a closing bracket. *)
Definition value_end (rest : str) : Prop :=
  match rest with
  | [] => True
  | c :: _ => c = 44%N \/ c = 93%N \/ c = 125%N
  end.

(** The end-to-end example: two rounds of one match, two flat teams, one
    grouped team. *)
Definition text (s : string) : value := VStr (py s).

Definition example_rounds : value :=
  VList [round_record (text "Jornada 1") (VInt 0)
           [match_record (VInt 1) (VInt 2) (py "2024-03-10T10:00") (VInt 1)
              (text "")];
         round_record (text "Jornada 2") (VInt 0)
           [match_record (VInt 2) (VInt 1) [] (VInt 5) (text "Campo Norte")]].

Definition example_mt : value :=
  VDict [(VInt 1, text "Team A"); (VInt 2, text "Team B")].

Definition example_pt : value :=
  VDict [(VInt 3, pt_entry (text "Team C") (text "B"))].

Definition elems_cost (l : list value) : nat :=
  fold_right (fun x n => S (cost x + n)) 0 l.

Definition members_cost (d : items) : nat :=
  fold_right (fun kv n => S (cost (snd kv) + n)) 0 d.

(** The JSON text of one member of an object. *)
Definition dumps_member (kv : value * value) : result str :=
  kt <- key_text (fst kv) ;;
  a <- dumps (snd kv) ;;
  Ok (encode_str kt ++ py ":" ++ a).

Definition as_json_member (kv : value * value) : str * value :=
  (key_str (fst kv), as_json (snd kv)).

(** The scanner reads the JSON text of [v] back, whatever follows it. *)
Definition reads_back (v : value) : Prop :=
  jsonable v = true ->
  exists j,
    dumps v = Ok j /\
    forall fuel rest,
      cost v <= fuel -> value_end rest ->
      scan_once fuel (j ++ rest) = Ok (as_json v, rest).

(** A JSON text written with ['] in the place of the double quote. *)
Definition pyq (s : string) : str :=
  map (fun c => if (c =? 39)%N then 34%N else c) (py s).

(** None of the texts and keys of [v] holds a space. *)
Fixpoint blank_free (v : value) : bool :=
  match v with
  | VStr s => negb (existsb (N.eqb 32) s)
  | VList l => forallb blank_free l
  | VDict d => forallb (fun kv => blank_free (fst kv) && blank_free (snd kv)) d
  | _ => true
  end.

(* ----------------------------------------------------------------- *)
(** ** Sample runs *)

(** The answers of the API behind the end-to-end example. *)
Definition raw_rounds : value :=
  VList
    [VDict [(text "name", text "Jornada 1"); (text "idGroup", VInt 0);
            (text "matches",
             VList [VDict [(text "idHomeTeam", VInt 1);
                           (text "idVisitorTeam", VInt 2);
                           (text "startTime", text "2024-03-10T10:00:00");
                           (text "status", VInt 1)]])];
     VDict [(text "name", text "Jornada 2");
            (text "matches",
             VList [VDict [(text "idHomeTeam", VInt 2);
                           (text "idVisitorTeam", VInt 1);
                           (text "field",
                            VDict [(text "name", text "Campo Norte")])]])]].

Definition raw_tournament_85 : value :=
  VDict [(text "teams", VList [team 1 "Team A"; team 2 "Team B"])].

Definition raw_tournament_87 : value :=
  VDict [(text "teams", VList [team 3 "Team C"])].

Definition sample_api (url : str) : result value :=
  if str_eqb url url_mini_raw then Ok raw_rounds
  else if str_eqb url url_pre_raw then Ok (VList [])
  else if str_eqb url url_mini_t then Ok raw_tournament_85
  else if str_eqb url url_pre_t then Ok raw_tournament_87
  else Raise URLError.

(** An API that cannot be reached. *)
Definition no_network (url : str) : result value := Raise URLError.

(** The document before the first run: old rounds, and the group of team 3
    persisted. *)
Definition document_before : str :=
  pyq "<script>
const MINI_MATCHES=[];
const PRE_MATCHES=[];

// ── STATIC TEAMS ──────────────────────────────────────────
const MT={};
const PT={'3':{'n':'Team C','g':'B'}};

// ── STATE ──
let current=0;
</script>".

(** The document after a run on [sample_api]. *)
Definition document_after : str :=
  pyq "<script>
const MINI_MATCHES=[{'n':'Jornada 1','g':0,'m':[{'h':1,'v':2,'d':'2024-03-10T10:00','s':1,'f':''}]},{'n':'Jornada 2','g':0,'m':[{'h':2,'v':1,'d':'','s':5,'f':'Campo Norte'}]}];
const PRE_MATCHES=[];

// ── STATIC TEAMS ──────────────────────────────────────────
const MT={'1':'Team A','2':'Team B'};
const PT={'3':{'n':'Team C','g':'B'}};

// ── STATE ──
let current=0;
</script>".

(** A document whose structure has changed: the anchors are gone. *)
Definition document_without_anchors : str := py "<html></html>".

(** A groups structure with one group of one team. *)
Definition tournament_with_groups : value :=
  VDict [(text "groups",
          VList [VDict [(text "name", text "Grupo B");
                        (text "teams", VList [team 3 "Team C"])]])].

(** A persisted mapping keyed by the integer id. *)
Definition persisted_B : value :=
  VDict [(VInt 5, pt_entry (text "X") (text "B"))].

(** Whatever the scanner reads, it leaves less text than it was given. *)
Definition consumes {A} (scan : str -> result (A * str)) : Prop :=
  forall s x rest, scan s = Ok (x, rest) -> length rest < length s.

(** With [need s] calls allowed, the scanner does not stop for want of
    fuel. *)
Definition fuelled {A} (need : str -> nat) (scan : nat -> str -> result A) (fuel : nat)
  : Prop :=
  forall s, need s <= fuel -> scan fuel s <> Raise RecursionError.

(* ----------------------------------------------------------------- *)
(** ** Vocabulary of the further properties *)

(** A group entry whose name can be trimmed: an object whose name, if any,
    is a text. *)
Definition group_name_ok (g : value) : bool :=
  match g with
  | VDict gd => is_text (get_or gd "name" (VStr []))
  | _ => false
  end.

(** The item of the flat mapping a team record gives. *)
Definition team_item (t : value) : value * value := (team_id t, team_name t).

(** A team record without its name. *)
Definition nameless_team (id : Z) : value := VDict [(text "id", VInt id)].

(** [lit] begins inside [pre] in the text [pre ++ lit]: an occurrence
    before the one that follows [pre]. *)
Fixpoint occurs_before (lit pre : str) : bool :=
  match pre with
  | [] => false
  | _ :: r => startswith (pre ++ lit) lit || occurs_before lit r
  end.

(** [lit] occurs somewhere in [s]. *)
Fixpoint occurs (lit s : str) : bool :=
  startswith s lit ||
  match s with
  | [] => false
  | _ :: r => occurs lit r
  end.

(** A replacement text without a backslash. *)
Definition plain_template (repl : str) : bool :=
  forallb (fun c => negb (c =? 92)%N) repl.

(* ================================================================= *)
(** * Properties *)

#[local] Set Default Proof Using "Type".

(** ** Text *)

Lemma str_eqb_eq (a b : str) : str_eqb a b = true <-> a = b.
Proof.
  revert b; induction a as [|x a IH]; intros [|y b]; simpl; split;
    try congruence; try reflexivity.
  - intros H. apply andb_true_iff in H as [Hx Hr].
    apply N.eqb_eq in Hx. apply IH in Hr. congruence.
  - intros H. injection H as -> ->.
    apply andb_true_iff. split; [apply N.eqb_refl | now apply IH].
Qed.

Lemma str_eqb_refl (a : str) : str_eqb a a = true.
Proof. now apply str_eqb_eq. Qed.

Lemma startswith_iff (s p : str) : startswith s p = true <-> begins_with p s.
Proof.
  revert s; induction p as [|y p IH]; intros s; simpl.
  - split; [intros _; now exists s | reflexivity].
  - destruct s as [|x s].
    + split; [discriminate | intros [r Hr]; discriminate].
    + rewrite andb_true_iff, N.eqb_eq, IH. split.
      * intros [-> [r ->]]. now exists r.
      * intros [r Hr]. simpl in Hr. injection Hr as -> ->. split; [reflexivity | now exists r].
Qed.

Lemma startswith_false_iff (s p : str) :
  startswith s p = false <-> ~ begins_with p s.
Proof.
  rewrite <- startswith_iff. destruct (startswith s p); split; congruence.
Qed.

Lemma startswith_app (p rest : str) : startswith (p ++ rest) p = true.
Proof. apply startswith_iff. now exists rest. Qed.

(* ================================================================= *)
(** ** fmt_date *)

Lemma fmt_date_str (s : str) :
  fmt_date (VStr s) =
  Ok (if is_empty s || startswith s (py "0001") || startswith s (py "1901")
      then [] else firstn 16 s).
Proof.
  unfold fmt_date. simpl truthy. rewrite negb_involutive.
  destruct s as [|c s]; [reflexivity|].
  cbn [is_empty orb]. now destruct (startswith _ _ || startswith _ _).
Qed.

(** C6. The timestamp formatter answers [""] for an absent ([None]) or empty
    timestamp and for one that begins with "0001" or "1901"; every other
    timestamp is cut to its first 16 characters. *)
Theorem fmt_date_truncates_or_blanks :
  fmt_date VNone = Ok [] /\
  forall s : str,
    (s = [] \/ begins_with (py "0001") s \/ begins_with (py "1901") s ->
     fmt_date (VStr s) = Ok []) /\
    (s <> [] -> ~ begins_with (py "0001") s -> ~ begins_with (py "1901") s ->
     fmt_date (VStr s) = Ok (firstn 16 s)).
Proof.
  split; [reflexivity|]. intros s. rewrite fmt_date_str. split.
  - intros [-> | [H | H]]; [reflexivity| |];
      apply startswith_iff in H; rewrite H;
      now rewrite ?orb_true_r.
  - intros Hne H1 H2.
    apply startswith_false_iff in H1, H2. rewrite H1, H2.
    destruct s; [congruence | reflexivity].
Qed.

(** C10. On a text the formatter never raises, and a non-empty timestamp
    shorter than 16 characters that does not begin with "0001" or "1901"
    comes back unchanged. *)
Theorem fmt_date_short_unchanged (s : str) :
  (exists t, fmt_date (VStr s) = Ok t) /\
  (s <> [] -> ~ begins_with (py "0001") s -> ~ begins_with (py "1901") s ->
   length s < 16 -> fmt_date (VStr s) = Ok s).
Proof.
  rewrite fmt_date_str. split; [eauto|].
  intros Hne H1 H2 Hlen.
  apply startswith_false_iff in H1, H2. rewrite H1, H2.
  destruct s as [|c s]; [congruence|]. cbn [is_empty orb].
  now rewrite firstn_all2 by lia.
Qed.

(* ================================================================= *)
(** ** transform_matches *)

Lemma py_get_dict (d : items) (k : string) (default : value) :
  py_get (VDict d) k default = Ok (get_or d k default).
Proof. reflexivity. Qed.

Lemma get_or_absent {d : items} {k : string} (default : value) :
  absent d k -> get_or d k default = default.
Proof. unfold absent, get_or. now intros ->. Qed.

Lemma fmt_date_falsy (v : value) : truthy v = false -> fmt_date v = Ok [].
Proof. unfold fmt_date. now intros ->. Qed.

Lemma transform_match_defaults (m : value) :
  match_ok m = true -> exists r, transform_match m = Ok r /\ match_defaults m r.
Proof.
  destruct m as [| | | | |md]; try discriminate. simpl.
  intros Hok. apply andb_true_iff in Hok as [Hst Hfo].
  unfold transform_match. rewrite !py_get_dict. cbn [bind].
  assert (Hd : exists d, fmt_date (get_or md "startTime" (VStr [])) = Ok d /\
                         (absent md "startTime" -> d = [])).
  { destruct (truthy (get_or md "startTime" (VStr []))) eqn:Ht.
    - simpl in Hst. destruct (get_or md "startTime" (VStr [])) eqn:E;
        try discriminate.
      rewrite fmt_date_str. eexists; split; [reflexivity|].
      intros Ha. rewrite (get_or_absent _ Ha) in E. now injection E as <-.
    - rewrite (fmt_date_falsy _ Ht). eauto. }
  destruct Hd as [d [-> Hd]]. cbn [bind].
  set (fo := get_or md "field" VNone) in *.
  assert (Hf : exists f,
             (if truthy (py_or fo (VDict []))
              then n <- py_get (py_or fo (VDict [])) "name" VNone ;;
                   Ok (py_or n (VStr []))
              else Ok (VStr [])) = Ok f /\
             (absent md "field" -> f = VStr []) /\
             (forall fd, fo = VDict fd -> absent fd "name" -> f = VStr [])).
  { unfold py_or at 1 2. destruct (truthy fo) eqn:Ht.
    - simpl in Hfo. destruct fo as [| | | | |fd] eqn:E; try discriminate.
      rewrite Ht, py_get_dict. cbn [bind]. eexists; split; [reflexivity|]. split.
      + intros Ha. subst fo. rewrite (get_or_absent _ Ha) in E. discriminate.
      + intros fd' Hfd Ha. injection Hfd as <-.
        now rewrite (get_or_absent _ Ha).
    - simpl. eexists; split; [reflexivity|]. split; [reflexivity|].
      intros fd Hfd Ha. reflexivity. }
  destruct Hf as [f [-> [Hf1 Hf2]]]. cbn [bind].
  eexists; split; [reflexivity|].
  exists md. do 5 eexists. split; [reflexivity|]. split; [reflexivity|].
  repeat split.
  - intros Ha. now rewrite (get_or_absent _ Ha).
  - intros Ha. now rewrite (get_or_absent _ Ha).
  - intros Ha. now rewrite (get_or_absent _ Ha).
  - exact Hd.
  - exact Hf1.
  - exact Hf2.
Qed.

(** The condition is needed: any other match record makes the Transformer
    raise. *)
Lemma transform_match_raises (m : value) :
  match_ok m = false -> exists e, transform_match m = Raise e.
Proof.
  destruct m as [| | | | |md]; try (intros _; eexists; reflexivity).
  cbn [match_ok]. intros Hok. unfold transform_match.
  rewrite !py_get_dict. cbn [bind].
  destruct (negb (truthy (get_or md "startTime" (VStr [])))
            || is_text (get_or md "startTime" (VStr []))) eqn:Hst.
  - cbn [andb] in Hok. apply orb_false_iff in Hok as [Hf Hd].
    apply negb_false_iff in Hf.
    destruct (fmt_date (get_or md "startTime" (VStr []))) as [d|e];
      [|eexists; reflexivity].
    cbn [bind]. unfold py_or at 1 2. rewrite Hf, Hf.
    destruct (get_or md "field" VNone); try discriminate;
      eexists; reflexivity.
  - apply orb_false_iff in Hst as [Ht Hx]. apply negb_false_iff in Ht.
    unfold fmt_date. rewrite Ht. cbn [negb].
    destruct (get_or md "startTime" (VStr [])); try discriminate;
      eexists; reflexivity.
Qed.

Lemma mapM_Forall2 {A B} (f : A -> result B) (ok : A -> bool)
  (R : A -> B -> Prop) (l : list A) :
  (forall x, ok x = true -> exists y, f x = Ok y /\ R x y) ->
  forallb ok l = true ->
  exists ys, mapM f l = Ok ys /\ Forall2 R l ys.
Proof.
  intros Hf. induction l as [|x l IH]; simpl; intros Hok.
  - exists []. split; [reflexivity | constructor].
  - apply andb_true_iff in Hok as [Hx Hl].
    destruct (Hf x Hx) as [y [-> Hy]]. destruct (IH Hl) as [ys [-> Hys]].
    exists (y :: ys). split; [reflexivity | now constructor].
Qed.

Lemma transform_jornada_defaults (r : value) :
  round_ok r = true -> exists o, transform_jornada r = Ok o /\ round_defaults r o.
Proof.
  destruct r as [| | | | |jd]; try discriminate. simpl.
  destruct (get_or jd "matches" (VList [])) as [| | | |ms|] eqn:E;
    try discriminate.
  intros Hok. unfold transform_jornada. rewrite !py_get_dict, E. cbn [bind py_iter].
  destruct (mapM_Forall2 transform_match match_ok match_defaults ms
              transform_match_defaults Hok) as [out [-> Hout]].
  cbn [bind]. eexists; split; [reflexivity|].
  exists jd, ms. do 3 eexists. split; [reflexivity|]. split; [exact E|].
  split; [reflexivity|]. repeat split.
  - intros Ha. now rewrite (get_or_absent _ Ha).
  - intros Ha. now rewrite (get_or_absent _ Ha).
  - exact Hout.
Qed.

(** C7. On round objects and match records whose optional fields are missing
    in any combination (and, where given, of the documented type) the
    Transformer does not raise; it answers one record per round and per
    match, in order, with the defaults: status 5, home and visitor ids -1,
    empty timestamp, empty venue, empty round name, group id 0. *)
Theorem transform_matches_defaults (rounds : list value) :
  forallb round_ok rounds = true ->
  exists out,
    transform_matches (VList rounds) = Ok (VList out) /\
    Forall2 round_defaults rounds out.
Proof.
  intros Hok. unfold transform_matches. cbn [py_iter bind].
  destruct (mapM_Forall2 transform_jornada round_ok round_defaults rounds
              transform_jornada_defaults Hok) as [out [-> Hout]].
  exists out. split; [reflexivity | exact Hout].
Qed.

(* ================================================================= *)
(** ** Group letters *)

Lemma lstrip_nil_iff (s : str) : lstrip s = [] <-> forallb isspace s = true.
Proof.
  induction s as [|c s IH]; simpl; [split; reflexivity|].
  destruct (isspace c); simpl; [exact IH | split; discriminate].
Qed.

Lemma lstrip_head (s : str) {c : char} {r : str} :
  lstrip s = c :: r -> isspace c = false.
Proof.
  induction s as [|x s IH]; simpl; [discriminate|].
  destruct (isspace x) eqn:E; [exact IH|]. now intros [= <- _].
Qed.

Lemma forallb_rev {A} (f : A -> bool) (l : list A) :
  forallb f (rev l) = forallb f l.
Proof.
  induction l as [|x l IH]; simpl; [reflexivity|].
  rewrite forallb_app, IH. simpl. rewrite andb_true_r. apply andb_comm.
Qed.

(** The trimmed name is empty exactly when the name is white space only. *)
Lemma strip_nil_iff (s : str) : strip s = [] <-> forallb isspace s = true.
Proof.
  unfold strip. split.
  - intros H. apply (f_equal (@rev char)) in H. rewrite rev_involutive in H.
    simpl in H. apply lstrip_nil_iff in H. rewrite forallb_rev in H.
    destruct (lstrip s) as [|c r] eqn:E; [now apply lstrip_nil_iff|].
    simpl in H. rewrite (lstrip_head _ E) in H. discriminate.
  - intros H. apply lstrip_nil_iff in H. now rewrite H.
Qed.

Lemma last_char_snoc (init : str) (c : char) : last_char (init ++ [c]) = Ok [c].
Proof. unfold last_char. now rewrite rev_app_distr. Qed.

Lemma is_empty_snoc (init : str) (c : char) : is_empty (init ++ [c]) = false.
Proof. now destruct init. Qed.

Lemma existsb_valid_letters (g : str) :
  existsb (str_eqb g) valid_letters = true <-> In g valid_letters.
Proof.
  rewrite existsb_exists. split.
  - intros [x [Hx He]]. apply str_eqb_eq in He. now subst.
  - intros H. exists g. split; [exact H | apply str_eqb_refl].
Qed.

Lemma snoc_cases {A} (l : list A) : l = [] \/ exists init x, l = init ++ [x].
Proof.
  induction l as [|x l _] using rev_ind; [now left | right; eauto].
Qed.

Lemma group_letter_text (name : str) :
  exists g, group_letter (VStr name) = Ok g /\ In g valid_letters.
Proof.
  unfold group_letter.
  destruct (snoc_cases (strip name)) as [E | [init [c E]]]; rewrite E.
  - simpl. eexists; split; [reflexivity|]. now left.
  - rewrite is_empty_snoc, last_char_snoc. cbn [negb bind].
    destruct (existsb (str_eqb (upper [c])) valid_letters) eqn:Ev.
    + eexists; split; [reflexivity|]. now apply existsb_valid_letters.
    + eexists; split; [reflexivity|]. now left.
Qed.

Lemma group_letter_last (name init : str) (c : char) :
  strip name = init ++ [c] ->
  (In (upper_char c) valid_letters ->
   group_letter (VStr name) = Ok (upper_char c)) /\
  (~ In (upper_char c) valid_letters ->
   group_letter (VStr name) = Ok (py "A")).
Proof.
  intros E. unfold group_letter.
  rewrite E, is_empty_snoc, last_char_snoc. cbn [negb bind].
  unfold upper. cbn [flat_map]. rewrite app_nil_r.
  split; intros H.
  - apply existsb_valid_letters in H. now rewrite H.
  - destruct (existsb _ valid_letters) eqn:Ev; [|reflexivity].
    apply existsb_valid_letters in Ev. contradiction.
Qed.

Lemma group_letter_blank (name : str) :
  forallb isspace name = true -> group_letter (VStr name) = Ok (py "A").
Proof.
  intros H. apply strip_nil_iff in H. unfold group_letter. now rewrite H.
Qed.

Lemma group_letter_no_index_error (gname : value) :
  group_letter gname <> Raise IndexError.
Proof.
  destruct gname as [| | |name| |]; try discriminate.
  destruct (group_letter_text name) as [g [-> _]]. discriminate.
Qed.

Lemma for_each_invariant {S A} (Inv : S -> Prop) (body : S -> A -> result S)
  (l : list A) :
  (forall s x s', In x l -> Inv s -> body s x = Ok s' -> Inv s') ->
  forall s s', Inv s -> for_each body l s = Ok s' -> Inv s'.
Proof.
  induction l as [|x l IH]; simpl; intros Hb s s' Hs H.
  - now injection H as <-.
  - destruct (body s x) as [s1|e] eqn:E; [|discriminate]. simpl in H.
    apply (IH (fun s0 y s1' Hy => Hb s0 y s1' (or_intror Hy)) s1 s'); [|exact H].
    apply (Hb s x s1); auto.
Qed.

Lemma dict_set_Forall (Q : value -> Prop) (d : items) (k v : value) :
  Forall (fun kv => Q (snd kv)) d -> Q v ->
  Forall (fun kv => Q (snd kv)) (dict_set d k v).
Proof.
  intros Hd Hv. induction Hd as [|[k' v'] r Hq Hr IH]; simpl.
  - constructor; [exact Hv | constructor].
  - destruct (key_eqb k' k); constructor; auto.
Qed.

Lemma bind_ok {A B} (c : result A) (k : A -> result B) (b : B) :
  bind c k = Ok b -> exists a, c = Ok a /\ k a = Ok b.
Proof. destruct c as [a|e]; simpl; [eauto | discriminate]. Qed.

Lemma add_teams_letters (g : str) (group : value) (pt pt' : items) :
  In g valid_letters ->
  Forall (fun kv => letter_entry (snd kv)) pt ->
  add_teams g group pt = Ok pt' ->
  Forall (fun kv => letter_entry (snd kv)) pt'.
Proof.
  intros Hg Hpt H. unfold add_teams in H.
  apply bind_ok in H as [ts [_ H]]. apply bind_ok in H as [tl [_ H]].
  revert H. apply for_each_invariant; [|exact Hpt].
  intros s t s' _ Hs Hb.
  apply bind_ok in Hb as [n [_ Hb]]. apply bind_ok in Hb as [i [_ Hb]].
  unfold dict_setitem in Hb. destruct (hashable i); [|discriminate].
  injection Hb as <-. apply dict_set_Forall; [exact Hs|].
  exists n, g. split; [reflexivity | exact Hg].
Qed.

Lemma group_letter_of_valid (group : value) (g : str) :
  group_letter_of group = Ok g -> In g valid_letters.
Proof.
  unfold group_letter_of. intros H. apply bind_ok in H as [gname [_ H]].
  destruct gname as [| | |name| |]; try discriminate.
  destruct (group_letter_text name) as [g' [E Hg]]. congruence.
Qed.

Lemma from_groups_letters (td : value) (pt : items) :
  from_groups td = Ok pt -> Forall (fun kv => letter_entry (snd kv)) pt.
Proof.
  unfold from_groups. intros H. apply bind_ok in H as [groups [_ H]].
  destruct (truthy groups); [|injection H as <-; constructor].
  apply bind_ok in H as [gl [_ H]].
  revert H. apply for_each_invariant; [|constructor].
  intros s grp s' _ Hs Hb. unfold add_group in Hb.
  apply bind_ok in Hb as [g [Hg Hb]].
  eapply add_teams_letters; eauto using group_letter_of_valid.
Qed.

Lemma build_pt_from_groups (td ex : value) (pt : items) :
  from_groups td = Ok pt -> pt <> [] -> build_pt td ex = Ok (VDict pt).
Proof.
  intros H Hne. unfold build_pt. rewrite H. cbn [bind].
  destruct pt; [congruence | reflexivity].
Qed.

(** The derivation of lines 81-89.  The group letter of a display name is
    the last character of the trimmed name in upper case, replaced by "A"
    when that is not one of A, B, C, D; "Grupo A", "B", "grupo c" and "Z"
    give "A", "B", "C" and "A"; and every group stored from a groups
    structure is one of the four letters, the mapping built from a groups
    structure that lists a team being the result of [build_pt]. *)
Theorem group_letter_derivation :
  (forall name init c,
      strip name = init ++ [c] ->
      (In (upper_char c) valid_letters ->
       group_letter (VStr name) = Ok (upper_char c)) /\
      (~ In (upper_char c) valid_letters ->
       group_letter (VStr name) = Ok (py "A"))) /\
  (group_letter (VStr (py "Grupo A")) = Ok (py "A") /\
   group_letter (VStr (py "B")) = Ok (py "B") /\
   group_letter (VStr (py "grupo c")) = Ok (py "C") /\
   group_letter (VStr (py "Z")) = Ok (py "A")) /\
  (forall td ex pt,
      from_groups td = Ok pt ->
      Forall (fun kv => letter_entry (snd kv)) pt /\
      (pt <> [] -> build_pt td ex = Ok (VDict pt))).
Proof.
  split; [exact group_letter_last|]. split.
  - repeat split; reflexivity.
  - intros td ex pt H. split.
    + exact (from_groups_letters td pt H).
    + exact (build_pt_from_groups td ex pt H).
Qed.

(** C9. A group entry whose display name is missing, empty or white space
    only is given the letter "A" without raising, and its teams are stored
    under "A"; the indexing of the last character never raises. *)
Theorem blank_group_name_gets_A :
  (forall group, group_letter_of group <> Raise IndexError) /\
  (forall (gd pt : items),
      (absent gd "name" \/
       exists name, get_or gd "name" (VStr []) = VStr name /\
                    forallb isspace name = true) ->
      group_letter_of (VDict gd) = Ok (py "A") /\
      add_group pt (VDict gd) = add_teams (py "A") (VDict gd) pt).
Proof.
  split.
  - intros group. unfold group_letter_of.
    destruct (py_get group "name" (VStr [])) as [gname|e] eqn:E; cbn [bind].
    + apply group_letter_no_index_error.
    + destruct group; simpl in E; try discriminate; congruence.
  - intros gd pt H.
    assert (Hl : group_letter_of (VDict gd) = Ok (py "A")).
    { unfold group_letter_of. rewrite py_get_dict. cbn [bind].
      destruct H as [Ha | [name [-> Hws]]].
      - now rewrite (get_or_absent _ Ha).
      - now apply group_letter_blank. }
    split; [exact Hl|]. unfold add_group. now rewrite Hl.
Qed.

(* ================================================================= *)
(** ** build_pt: the fallback *)

Lemma key_eqb_refl (k : value) : hashable k = true -> key_eqb k k = true.
Proof.
  destruct k as [|b|z|s| |]; simpl; try discriminate; intros _.
  - reflexivity.
  - now destruct b.
  - apply Z.eqb_refl.
  - apply str_eqb_refl.
Qed.

Lemma dict_lookup_set_same (d : items) (k v : value) :
  hashable k = true -> exists e, dict_lookup (dict_set d k v) k = Some e.
Proof.
  intros Hk. induction d as [|[k0 v0] r IH]; simpl.
  - rewrite (key_eqb_refl k Hk). eauto.
  - destruct (key_eqb k0 k) eqn:E; simpl; rewrite E; eauto.
Qed.

Lemma dict_lookup_set_keeps (d : items) (k v k' : value) :
  (exists e, dict_lookup d k' = Some e) ->
  exists e, dict_lookup (dict_set d k v) k' = Some e.
Proof.
  induction d as [|[k0 v0] r IH]; simpl; intros [e He]; [discriminate|].
  destruct (key_eqb k0 k); simpl; destruct (key_eqb k0 k'); eauto.
Qed.

Lemma dict_set_In (d : items) (k v k' e' : value) :
  hashable k = true ->
  In (k', e') (dict_set d k v) ->
  In (k', e') d \/ (e' = v /\ key_eqb k' k = true).
Proof.
  intros Hk. induction d as [|[k0 v0] r IH]; simpl.
  - intros [H | []]. injection H as <- <-. right. split; [reflexivity|].
    now apply key_eqb_refl.
  - destruct (key_eqb k0 k) eqn:E; simpl.
    + intros [H | H].
      * injection H as <- <-. right. now split.
      * left. now right.
    + intros [H | H]; [left; now left|].
      destruct (IH H) as [H' | H']; [left; now right | now right].
Qed.

Lemma find_groups_none (td : items) :
  no_groups td -> find_groups (VDict td) = Ok (VList []).
Proof.
  intros [H1 [H2 H3]]. unfold find_groups.
  rewrite !py_get_dict. cbn [bind]. rewrite H1. cbn [bind]. rewrite H2.
  cbn [bind]. now rewrite H3.
Qed.

Lemma from_groups_none (td : items) :
  no_groups td -> from_groups (VDict td) = Ok [].
Proof.
  intros H. unfold from_groups. now rewrite (find_groups_none td H).
Qed.

Lemma previous_group_total (ex tid : value) :
  (ex = VNone \/ exists prev, ex = VDict prev) ->
  hashable tid = true ->
  exists g, previous_group ex tid = Ok g.
Proof.
  intros Hex Hk. unfold previous_group.
  destruct Hex as [-> | [prev ->]]; [simpl; eauto|].
  destruct (truthy (VDict prev)); [|eauto].
  unfold py_get_key. rewrite Hk. cbn [bind].
  set (e1 := match dict_lookup prev tid with Some v => v | None => VNone end).
  assert (He : exists entry,
             (if truthy e1 then Ok e1
              else match py_str tid with
                   | Some t =>
                       if hashable (VStr t)
                       then Ok match dict_lookup prev (VStr t) with
                               | Some v => v
                               | None => VNone
                               end
                       else Raise TypeError
                   | None => Raise TypeError
                   end) = Ok entry).
  { destruct (truthy e1); [eauto|].
    destruct tid as [|[]| | | |]; simpl in *; try discriminate; eauto. }
  destruct He as [entry ->]. cbn [bind].
  destruct (truthy entry); [|eauto].
  destruct entry; eauto. rewrite py_get_dict. eauto.
Qed.

Lemma add_fallback_step (ex : value) (seen : list value) (acc : items)
  (t : value) :
  (ex = VNone \/ exists prev, ex = VDict prev) ->
  team_ok t = true ->
  fallback_inv ex seen acc ->
  exists acc', add_fallback ex acc t = Ok acc' /\
               fallback_inv ex (seen ++ [t]) acc'.
Proof.
  intros Hex Ht [I1 I2].
  destruct t as [| | | | |d]; try discriminate. simpl in Ht.
  destruct (dict_lookup d (VStr (py "id"))) as [i|] eqn:Ei; [|discriminate].
  destruct (dict_lookup d (VStr (py "name"))) as [n|] eqn:En; [|discriminate].
  assert (Hid : team_id (VDict d) = i) by (simpl; unfold get_or; now rewrite Ei).
  assert (Hn : team_name (VDict d) = n) by (simpl; unfold get_or; now rewrite En).
  destruct (previous_group_total ex i Hex Ht) as [g Hg].
  unfold add_fallback, py_getitem. rewrite Ei, En. cbn [bind]. rewrite Hg.
  cbn [bind]. unfold dict_setitem. rewrite Ht. eexists; split; [reflexivity|].
  split.
  - intros t' Hin. apply in_app_or in Hin as [Hin | [<- | []]].
    + apply dict_lookup_set_keeps. now apply I1.
    + rewrite Hid. now apply dict_lookup_set_same.
  - intros k e Hin. apply dict_set_In in Hin; [|exact Ht].
    destruct Hin as [Hin | [-> Hk]].
    + destruct (I2 k e Hin) as [t' [g' [H1 [H2 [H3 H4]]]]].
      exists t', g'. repeat split; auto. apply in_or_app. now left.
    + exists (VDict d), g. rewrite Hid, Hn. repeat split; auto.
      apply in_or_app. right. now left.
Qed.

Lemma fallback_loop (ex : value) (l seen : list value) (acc : items) :
  (ex = VNone \/ exists prev, ex = VDict prev) ->
  forallb team_ok l = true ->
  fallback_inv ex seen acc ->
  exists out, for_each (add_fallback ex) l acc = Ok out /\
              fallback_inv ex (seen ++ l) out.
Proof.
  intros Hex. revert seen acc. induction l as [|t l IH]; simpl; intros seen acc Hok Hinv.
  - exists acc. rewrite app_nil_r. now split.
  - apply andb_true_iff in Hok as [Ht Hl].
    destruct (add_fallback_step ex seen acc t Hex Ht Hinv) as [acc' [-> Hinv']].
    cbn [bind]. destruct (IH (seen ++ [t]) acc' Hl Hinv') as [out [Hout Hfin]].
    exists out. split; [exact Hout|]. now rewrite <- app_assoc in Hfin.
Qed.

Lemma previous_group_found (prev : items) (tid e : value) :
  hashable tid = true ->
  found prev tid e ->
  previous_group (VDict prev) tid = Ok (group_of_entry e).
Proof.
  intros Hk [Hl Ht]. unfold previous_group.
  assert (Hp : truthy (VDict prev) = true) by (destruct prev; [discriminate | reflexivity]).
  rewrite Hp. unfold py_get_key. rewrite Hk, Hl. cbn [bind]. rewrite Ht.
  cbn [bind]. rewrite Ht. now destruct e.
Qed.

Lemma previous_group_found_by_text (prev : items) (tid : value) (t : str)
  (e : value) :
  hashable tid = true ->
  not_found prev tid ->
  py_str tid = Some t ->
  found prev (VStr t) e ->
  previous_group (VDict prev) tid = Ok (group_of_entry e).
Proof.
  intros Hk Hnf Hs [Hl Ht]. unfold previous_group.
  assert (Hp : truthy (VDict prev) = true) by (destruct prev; [discriminate | reflexivity]).
  rewrite Hp. unfold py_get_key. rewrite Hk. cbn [bind].
  assert (H1 : truthy (match dict_lookup prev tid with
                       | Some v => v | None => VNone end) = false).
  { destruct (dict_lookup prev tid) as [e0|] eqn:E; [now apply Hnf | reflexivity]. }
  rewrite H1, Hs. cbn [hashable]. rewrite Hl. cbn [bind]. rewrite Ht.
  now destruct e.
Qed.

Lemma previous_group_not_found (prev : items) (tid : value) (t : str) :
  hashable tid = true ->
  not_found prev tid ->
  py_str tid = Some t ->
  not_found prev (VStr t) ->
  previous_group (VDict prev) tid = Ok (VStr (py "A")).
Proof.
  intros Hk Hnf Hs Hnf'. unfold previous_group.
  destruct (truthy (VDict prev)); [|reflexivity].
  unfold py_get_key. rewrite Hk. cbn [bind].
  assert (H1 : truthy (match dict_lookup prev tid with
                       | Some v => v | None => VNone end) = false).
  { destruct (dict_lookup prev tid) as [e|] eqn:E; [now apply Hnf | reflexivity]. }
  rewrite H1, Hs. cbn [hashable bind].
  assert (H2 : truthy (match dict_lookup prev (VStr t) with
                       | Some v => v | None => VNone end) = false).
  { destruct (dict_lookup prev (VStr t)) as [e|] eqn:E; [now apply Hnf' | reflexivity]. }
  now rewrite H2.
Qed.

Lemma previous_group_empty (ex tid : value) :
  truthy ex = false -> previous_group ex tid = Ok (VStr (py "A")).
Proof. intros H. unfold previous_group. now rewrite H. Qed.

(** C4. Without a groups structure the grouped resolver answers a mapping
    that holds every team of the flat teams list, each under its name and
    the group of its previous assignment: the entry found under the id or,
    failing that, under the text of the id gives its letter when it is
    well-formed, and the group is "A" otherwise; with an empty previous
    mapping every group is "A". *)
Theorem fallback_reuses_previous_groups :
  (forall (td : items) (ex : value) (teams : list value),
      no_groups td ->
      get_or td "teams" (VList []) = VList teams ->
      forallb team_ok teams = true ->
      (ex = VNone \/ exists prev, ex = VDict prev) ->
      exists out,
        build_pt (VDict td) ex = Ok (VDict out) /\ fallback_inv ex teams out) /\
  (forall (prev : items) (tid : value),
      hashable tid = true ->
      (forall e, found prev tid e ->
                 previous_group (VDict prev) tid = Ok (group_of_entry e)) /\
      (forall t e, not_found prev tid -> py_str tid = Some t ->
                   found prev (VStr t) e ->
                   previous_group (VDict prev) tid = Ok (group_of_entry e)) /\
      (forall t, not_found prev tid -> py_str tid = Some t ->
                 not_found prev (VStr t) ->
                 previous_group (VDict prev) tid = Ok (VStr (py "A")))) /\
  (forall ex tid, truthy ex = false ->
                  previous_group ex tid = Ok (VStr (py "A"))).
Proof.
  split; [|split].
  - intros td ex teams Hng Hteams Hok Hex.
    assert (Hinv0 : fallback_inv ex [] []).
    { split; [intros t [] | intros k e []]. }
    destruct (fallback_loop ex teams [] [] Hex Hok Hinv0) as [out [Hout Hinv]].
    exists out. split; [|exact Hinv].
    unfold build_pt. rewrite (from_groups_none td Hng). cbn [bind truthy negb].
    unfold fallback. rewrite py_get_dict, Hteams. cbn [bind py_iter].
    now rewrite Hout.
  - intros prev tid Hk. split; [|split].
    + intros e. now apply previous_group_found.
    + intros t e. now apply previous_group_found_by_text.
    + intros t. now apply previous_group_not_found.
  - exact previous_group_empty.
Qed.

(* ================================================================= *)
(** ** main *)

Lemma fetch_all_fails (w : world) :
  fetch_fails w ->
  exists fetches e,
    fetch_all w = (fetches, Raise e) /\ existsb touches_file fetches = false.
Proof.
  intros [url [e [Hin He]]]. unfold fetch_all.
  destruct (api w url_mini_raw) as [a|e1] eqn:E1; [|do 2 eexists; split; reflexivity].
  destruct (api w url_pre_raw) as [b|e2] eqn:E2; [|do 2 eexists; split; reflexivity].
  destruct (api w url_mini_t) as [c|e3] eqn:E3; [|do 2 eexists; split; reflexivity].
  destruct (api w url_pre_t) as [d|e4] eqn:E4; [|do 2 eexists; split; reflexivity].
  simpl in Hin. destruct Hin as [<- | [<- | [<- | [<- | []]]]]; congruence.
Qed.

(** C3. When one of the four requests fails, the run ends with status 1
    before the document is opened: nothing of the run reads or writes it,
    and its content is what it was. *)
Theorem fetch_failure_leaves_document (w : world) :
  fetch_fails w ->
  exit_status (main w) = 1%Z /\
  disk (main w) = index_html w /\
  existsb touches_file (trace (main w)) = false.
Proof.
  intros H. destruct (fetch_all_fails w H) as [fetches [e [Hf Ht]]].
  unfold main. rewrite Hf. cbn [exit_status disk trace].
  repeat split. cbn [existsb touches_file orb]. rewrite existsb_app, Ht. reflexivity.
Qed.

(** *** The rounds pattern matches only where the anchors are *)

Lemma skipn_length_app {A} (l r : list A) : skipn (length l) (l ++ r) = r.
Proof. induction l as [|x l IH]; simpl; [reflexivity | exact IH]. Qed.

Lemma ahead_matches (adv : bool) (l s : str) (ps : list str) :
  match_here adv [Ahead l] s = Some ps -> begins_with l s.
Proof.
  simpl. destruct (startswith s l) eqn:E; [|discriminate].
  intros _. now apply startswith_iff.
Qed.

Lemma lazy_any_ahead (l : str) (adv : bool) (taken s : str) (ps : list str) :
  lazy_any (fun adv s => match_here adv [Ahead l] s) adv taken s = Some ps ->
  exists b c, s = b ++ l ++ c.
Proof.
  revert adv taken. induction s as [|x s IH]; intros adv taken; cbn [lazy_any].
  - destruct (match_here adv [Ahead l] []) as [qs|] eqn:E; [|discriminate].
    intros _. apply ahead_matches in E as [c Hc]. now exists [], c.
  - destruct (match_here adv [Ahead l] (x :: s)) as [qs|] eqn:E.
    + intros _. apply ahead_matches in E as [c Hc]. now exists [], c.
    + intros H. destruct (IH _ _ H) as [b [c ->]]. now exists (x :: b), c.
Qed.

Lemma rounds_pattern_matches (adv : bool) (s : str) (ps : list str) :
  match_here adv rounds_pattern s = Some ps ->
  exists b c, s = rounds_intro ++ b ++ state_marker ++ c.
Proof.
  unfold rounds_pattern. cbn [match_here].
  destruct (startswith s rounds_intro) eqn:E; [|discriminate].
  apply startswith_iff in E as [r ->]. rewrite skipn_length_app.
  destruct (lazy_any _ _ _ r) as [qs|] eqn:El; [|discriminate].
  intros _. apply lazy_any_ahead in El as [b [c ->]]. now exists b, c.
Qed.

Lemma search_from_found (adv : bool) (p : regex) (skipped s : str)
  (found : str * list str * str) :
  search_from adv p skipped s = Some found ->
  exists a s' adv' ps, s = a ++ s' /\ match_here adv' p s' = Some ps.
Proof.
  revert adv skipped. induction s as [|x s IH]; intros adv skipped; cbn [search_from].
  - destruct (match_here adv p []) as [ps|] eqn:E; [|discriminate].
    intros _. now exists [], [], adv, ps.
  - destruct (match_here adv p (x :: s)) as [ps|] eqn:E.
    + intros _. now exists [], (x :: s), adv, ps.
    + intros H. destruct (IH _ _ H) as [a [s' [adv' [ps [-> Hm]]]]].
      now exists (x :: a), s', adv', ps.
Qed.

Lemma search_without_anchors (adv : bool) (html : str) :
  ~ has_anchors html -> search_from adv rounds_pattern [] html = None.
Proof.
  intros Hno. destruct (search_from adv rounds_pattern [] html) as [f|] eqn:E;
    [|reflexivity].
  exfalso. apply Hno.
  apply search_from_found in E as [a [s' [adv' [ps [-> Hm]]]]].
  apply rounds_pattern_matches in Hm as [b [c ->]]. now exists a, b, c.
Qed.

Lemma match_without_anchors (adv : bool) (a s : str) :
  ~ has_anchors (a ++ s) -> match_here adv rounds_pattern s = None.
Proof.
  intros Hno. destruct (match_here adv rounds_pattern s) as [ps|] eqn:E;
    [|reflexivity].
  exfalso. apply Hno.
  apply rounds_pattern_matches in E as [b [c ->]]. now exists a, b, c.
Qed.

(** Where the pattern matches nowhere, the loop keeps every character. *)
Lemma sub_walk_no_match (p : regex) (repl : str -> str) (s : str) :
  (forall a s', s = a ++ s' -> match_here false p s' = None) ->
  sub_walk p repl 0 s = s.
Proof.
  induction s as [|c r IH]; intros Hno; cbn [sub_walk].
  - now rewrite (Hno [] [] eq_refl).
  - rewrite (Hno [] (c :: r) eq_refl). f_equal. apply IH.
    intros a s' ->. now apply (Hno (c :: a) s').
Qed.

Lemma re_sub_without_anchors (repl html new_html : str) :
  ~ has_anchors html ->
  re_sub rounds_pattern repl html = Ok new_html -> new_html = html.
Proof.
  intros Hno H. unfold re_sub in H. apply bind_ok in H as [tp [_ H]].
  injection H as <-. apply sub_walk_no_match.
  intros a s' ->. now apply (match_without_anchors false a s').
Qed.

Lemma substitute_without_anchors (a b c d : value) (html new_html : str) :
  ~ has_anchors html ->
  substitute a b c d html = Ok new_html -> new_html = html.
Proof.
  intros Hno H. unfold substitute in H.
  do 8 (apply bind_ok in H as [? [_ H]]).
  exact (re_sub_without_anchors _ _ _ Hno H).
Qed.

(** C2. On a document without the rounds introducer followed by the section
    marker, the run ends with status 1 and never opens the document for
    writing: its content is unchanged. *)
Theorem missing_anchors_abort (w : world) (html : str) :
  index_html w = Some html ->
  ~ has_anchors html ->
  exit_status (main w) = 1%Z /\
  disk (main w) = Some html /\
  existsb writes_file (trace (main w)) = false.
Proof.
  intros Hdoc Hno.
  assert (Hfetch : forall fetches r, fetch_all w = (fetches, r) ->
                                     existsb writes_file fetches = false).
  { intros fetches r. unfold fetch_all.
    destruct (api w url_mini_raw); [|now intros [= <- _]].
    destruct (api w url_pre_raw); [|now intros [= <- _]].
    destruct (api w url_mini_t); [|now intros [= <- _]].
    destruct (api w url_pre_t); now intros [= <- _]. }
  unfold main. destruct (fetch_all w) as [fetches r] eqn:Ef.
  specialize (Hfetch fetches r eq_refl). rewrite Hdoc.
  assert (Hstop : forall tail,
             existsb writes_file tail = false ->
             existsb writes_file (Stdout :: fetches ++ tail) = false).
  { intros tail Ht. cbn [existsb writes_file orb]. now rewrite existsb_app, Hfetch. }
  destruct r as [[[[a b] c] d]|e]; cbn [exit_status disk trace].
  - destruct (substitute a b c d html) as [new_html|e] eqn:Es;
      cbn [exit_status disk trace].
    + rewrite (substitute_without_anchors a b c d html new_html Hno Es).
      rewrite str_eqb_refl. cbn [exit_status disk trace].
      repeat split. now apply Hstop.
    + repeat split. now apply Hstop.
  - repeat split. now apply Hstop.
Qed.

(* ================================================================= *)
(** ** json: what [dumps] writes, [loads] reads back *)

(** *** Integers *)

Lemma is_digit_digit_char (d : N) : (d < 10)%N -> is_digit (digit_char d) = true.
Proof.
  intros H. unfold is_digit, digit_char.
  apply andb_true_iff. split; apply N.leb_le; lia.
Qed.

Lemma take_digits_uint (u : Decimal.uint) (rest : str) :
  starts_with_digit rest = false ->
  take_digits (uint_to_str u ++ rest) = (u, rest).
Proof.
  intros Hr. induction u; cbn [uint_to_str app take_digits];
    try (rewrite is_digit_digit_char by lia; rewrite IHu; reflexivity).
  destruct rest as [|c r]; [reflexivity|]. cbn [take_digits].
  simpl in Hr. now rewrite Hr.
Qed.

Lemma pos_to_uint_head (p : positive) :
  exists c r, uint_to_str (Pos.to_uint p) = c :: r /\
              is_digit c = true /\ (c =? 48)%N = false.
Proof.
  assert (Hnorm : Decimal.unorm (Pos.to_uint p) = Pos.to_uint p).
  { pose proof (DecimalN.Unsigned.to_of (N.to_uint (Npos p))) as H.
    rewrite DecimalN.Unsigned.of_to in H. simpl in H. now symmetry. }
  pose proof (DecimalPos.Unsigned.to_uint_nonzero p) as Hnz.
  pose proof (DecimalPos.Unsigned.to_uint_nonnil p) as Hnn.
  assert (Hhead : Decimal.nzhead (Pos.to_uint p) = Pos.to_uint p).
  { rewrite <- Hnorm at 2. symmetry. apply DecimalFacts.unorm_nzhead.
    intros Hnil. apply Hnz. rewrite <- Hnorm. unfold Decimal.unorm.
    now rewrite Hnil. }
  destruct (Pos.to_uint p) as [|u|u|u|u|u|u|u|u|u|u] eqn:E;
    try (cbn [uint_to_str]; do 2 eexists; split; [reflexivity|];
         split; reflexivity).
  - congruence.
  - exfalso. exact (DecimalFacts.nzhead_nonzero _ _ Hhead).
Qed.

Lemma scan_natural_N_to_str (n : N) (rest : str) :
  starts_with_digit rest = false ->
  scan_natural (N_to_str n ++ rest) = Ok (n, rest).
Proof.
  intros Hr. destruct n as [|p]; [reflexivity|].
  unfold N_to_str. cbn [N.to_uint].
  destruct (pos_to_uint_head p) as [c [r [E [Hd Hz]]]].
  unfold scan_natural. rewrite E. cbn [app]. rewrite Hz, Hd.
  change (c :: r ++ rest) with ((c :: r) ++ rest). rewrite <- E.
  rewrite (take_digits_uint _ rest Hr).
  pose proof (DecimalN.Unsigned.of_to (Npos p)) as H. simpl in H. now rewrite H.
Qed.

Lemma value_end_not_digit (rest : str) :
  value_end rest -> starts_with_digit rest = false.
Proof.
  destruct rest as [|c r]; [reflexivity|]. simpl.
  intros [-> | [-> | ->]]; reflexivity.
Qed.

Lemma value_end_not_float (rest : str) :
  value_end rest -> float_follows rest = false.
Proof.
  destruct rest as [|c [|d r]]; try reflexivity. simpl.
  intros [-> | [-> | ->]]; reflexivity.
Qed.

Lemma N_to_str_head (n : N) :
  exists c r, N_to_str n = c :: r /\ is_digit c = true.
Proof.
  destruct n as [|p]; [now exists 48%N, []|].
  destruct (pos_to_uint_head p) as [c [r [E [Hd _]]]]. now exists c, r.
Qed.

Lemma digit_not_minus (c : char) : is_digit c = true -> (c =? 45)%N = false.
Proof.
  unfold is_digit. intros H. apply andb_true_iff in H as [H1 H2].
  apply N.leb_le in H1. apply N.eqb_neq. lia.
Qed.

Lemma scan_number_Z_to_str (z : Z) (rest : str) :
  value_end rest ->
  scan_number (Z_to_str z ++ rest) = Ok (VInt z, rest).
Proof.
  intros Hr.
  pose proof (value_end_not_digit rest Hr) as Hd.
  pose proof (value_end_not_float rest Hr) as Hf.
  destruct z as [|p|p].
  - simpl. now rewrite Hf.
  - cbn [Z_to_str]. destruct (N_to_str_head (Npos p)) as [c [r [E Hc]]].
    unfold scan_number. rewrite E. cbn [app]. rewrite (digit_not_minus c Hc).
    change (c :: r ++ rest) with ((c :: r) ++ rest). rewrite <- E.
    rewrite (scan_natural_N_to_str _ rest Hd). cbn [bind]. now rewrite Hf.
  - cbn [Z_to_str]. change (py "-") with [45%N]. cbn [app scan_number N.eqb Pos.eqb].
    destruct (N_to_str_head (Npos p)) as [c [r [E Hc]]].
    assert (Hinf : startswith (N_to_str (Npos p) ++ rest) (py "Infinity") = false).
    { rewrite E. cbn. apply andb_false_iff. left.
      unfold is_digit in Hc. apply andb_true_iff in Hc as [H1 H2].
      apply N.leb_le in H2. apply N.eqb_neq. lia. }
    rewrite Hinf, (scan_natural_N_to_str _ rest Hd). cbn [bind]. now rewrite Hf.
Qed.

(** *** Texts *)

Lemma control_chars (c : N) :
  (c < 32)%N ->
  In c [0; 1; 2; 3; 4; 5; 6; 7; 8; 9; 10; 11; 12; 13; 14; 15; 16; 17; 18; 19;
        20; 21; 22; 23; 24; 25; 26; 27; 28; 29; 30; 31]%N.
Proof.
  intros H. destruct c as [|p]; [now left|].
  do 5 (try destruct p as [p|p|]); try lia; simpl;
    repeat (first [left; reflexivity | right]).
Qed.

(** Reading back what [escape_char] wrote for [c] gives [c]. *)
Lemma scanstring_escape (c : char) (tail : str) :
  scanstring (escape_char c ++ tail) =
  ' (t, rest) <- scanstring tail ;; Ok (c :: t, rest).
Proof.
  destruct (N.ltb_spec c 32) as [Hlt | Hge].
  - apply control_chars in Hlt. simpl in Hlt.
    repeat (destruct Hlt as [<- | Hlt]; [reflexivity|]). contradiction.
  - unfold escape_char.
    destruct (N.eqb_spec c 34) as [-> | H34]; [reflexivity|].
    destruct (N.eqb_spec c 92) as [-> | H92]; [reflexivity|].
    destruct (N.eqb_spec c 10); [lia|]. destruct (N.eqb_spec c 13); [lia|].
    destruct (N.eqb_spec c 9); [lia|]. destruct (N.eqb_spec c 8); [lia|].
    destruct (N.eqb_spec c 12); [lia|].
    destruct (N.ltb_spec c 32); [lia|].
    cbn [app scanstring].
    destruct (N.eqb_spec c 34); [contradiction|].
    destruct (N.eqb_spec c 92); [contradiction|].
    destruct (N.ltb_spec c 32); [lia | reflexivity].
Qed.

Lemma scanstring_body (s rest : str) :
  scanstring (flat_map escape_char s ++ 34%N :: rest) = Ok (s, rest).
Proof.
  induction s as [|c s IH]; [reflexivity|].
  cbn [flat_map]. rewrite <- app_assoc, scanstring_escape, IH. reflexivity.
Qed.

Lemma encode_str_app (s rest : str) :
  encode_str s ++ rest = 34%N :: flat_map escape_char s ++ 34%N :: rest.
Proof. unfold encode_str. cbn [app]. now rewrite <- app_assoc. Qed.

(** *** Structures *)

Lemma value_ind (P : value -> Prop) :
  P VNone -> (forall b, P (VBool b)) -> (forall z, P (VInt z)) ->
  (forall s, P (VStr s)) ->
  (forall l, Forall P l -> P (VList l)) ->
  (forall d, Forall (fun kv => P (snd kv)) d -> P (VDict d)) ->
  forall v, P v.
Proof.
  intros HNone HBool HInt HStr HList HDict.
  fix IH 1. intros [|b|z|s|l|d].
  - exact HNone.
  - apply HBool.
  - apply HInt.
  - apply HStr.
  - apply HList. induction l as [|x l IHl]; constructor; [apply IH | exact IHl].
  - apply HDict. induction d as [|[k x] d IHd]; constructor; [apply IH | exact IHd].
Qed.

Ltac chars_to_props H :=
  unfold value_start, is_digit, is_ws in H;
  rewrite ?orb_true_iff, ?andb_true_iff, ?N.eqb_eq, ?N.leb_le in H.

Lemma value_start_not_ws (c : char) : value_start c = true -> is_ws c = false.
Proof.
  intros H. chars_to_props H. unfold is_ws.
  rewrite !orb_false_iff, !N.eqb_neq. lia.
Qed.

Lemma value_start_not_close (c : char) :
  value_start c = true -> (c =? 93)%N = false /\ (c =? 125)%N = false.
Proof.
  intros H. chars_to_props H. rewrite !N.eqb_neq. lia.
Qed.

Lemma skip_ws_head (c : char) (r : str) :
  is_ws c = false -> skip_ws (c :: r) = c :: r.
Proof. intros H. simpl. now rewrite H. Qed.

Lemma dumps_head (v : value) (j : str) :
  dumps v = Ok j -> exists c r, j = c :: r /\ value_start c = true.
Proof.
  destruct v as [|[]|z|s|l|d]; cbn [dumps]; intros H.
  - injection H as <-. now exists 110%N, (py "ull").
  - injection H as <-. now exists 116%N, (py "rue").
  - injection H as <-. now exists 102%N, (py "alse").
  - injection H as <-. destruct z as [|p|p]; cbn [Z_to_str].
    + now exists 48%N, [].
    + destruct (N_to_str_head (Npos p)) as [c [r [E Hc]]]. exists c, r.
      split; [exact E|]. unfold value_start. rewrite Hc. now rewrite !orb_true_r.
    + now exists 45%N, (N_to_str (Npos p)).
  - injection H as <-. now exists 34%N, (flat_map escape_char s ++ [34%N]).
  - apply bind_ok in H as [parts [_ H]]. injection H as <-.
    now exists 91%N, (join (py ",") parts ++ py "]").
  - apply bind_ok in H as [parts [_ H]]. injection H as <-.
    now exists 123%N, (join (py ",") parts ++ py "}").
Qed.

Lemma scan_once_number (f : nat) (c : char) (r : str) :
  is_digit c = true \/ c = 45%N ->
  scan_once (S f) (c :: r) = scan_number (c :: r).
Proof.
  intros H.
  assert (Hc : (48 <= c <= 57)%N \/ c = 45%N).
  { destruct H as [H | H]; [left | now right].
    unfold is_digit in H. rewrite andb_true_iff, !N.leb_le in H. exact H. }
  cbn [scan_once].
  destruct (N.eqb_spec c 34); [lia|]. destruct (N.eqb_spec c 123); [lia|].
  destruct (N.eqb_spec c 91); [lia|].
  cbn [startswith py utf8_decode map list_ascii_of_string N_of_ascii
       N_of_digits N.ltb N.compare Pos.compare Pos.compare_cont N.add N.mul
       Pos.add Pos.mul].
  destruct (N.eqb_spec c 110); [lia|]. destruct (N.eqb_spec c 116); [lia|].
  destruct (N.eqb_spec c 102); [lia|]. destruct (N.eqb_spec c 78); [lia|].
  destruct (N.eqb_spec c 73); [lia|]. reflexivity.
Qed.

Lemma dumps_list (l : list value) :
  dumps (VList l) =
  parts <- mapM dumps l ;; Ok (91%N :: join [44%N] parts ++ [93%N]).
Proof. reflexivity. Qed.

Lemma dumps_dict (d : items) :
  dumps (VDict d) =
  parts <- mapM dumps_member d ;; Ok (123%N :: join [44%N] parts ++ [125%N]).
Proof. reflexivity. Qed.

Lemma join_cons2 (sep p q : str) (rest : list str) :
  join sep (p :: q :: rest) = p ++ sep ++ join sep (q :: rest).
Proof. reflexivity. Qed.

Lemma parse_elems_join (l : list value) :
  Forall reads_back l ->
  forallb jsonable l = true ->
  exists parts,
    mapM dumps l = Ok parts /\
    (l <> [] ->
     (exists c r, join [44%N] parts = c :: r /\ value_start c = true) /\
     forall fuel rest,
       elems_cost l <= fuel ->
       parse_elems fuel (join [44%N] parts ++ 93%N :: rest)
       = Ok (map as_json l, rest)).
Proof.
  induction 1 as [|x l Hx Hl IH]; intros Hj.
  - exists []. split; [reflexivity | congruence].
  - cbn [forallb] in Hj. apply andb_true_iff in Hj as [Hjx Hjl].
    destruct (Hx Hjx) as [jx [Ex Hscan]].
    destruct (IH Hjl) as [parts [Ep Hparts]].
    exists (jx :: parts). cbn [mapM]. rewrite Ex, Ep. split; [reflexivity|].
    intros _. destruct (dumps_head x jx Ex) as [c [r [Ejx Hc]]].
    destruct l as [|y l'].
    + cbn [mapM] in Ep. injection Ep as <-. cbn [join]. split.
      * now exists c, r.
      * intros fuel rest Hfuel. cbn [elems_cost fold_right] in Hfuel.
        destruct fuel as [|f]; [lia|]. cbn [parse_elems].
        rewrite (Hscan f (93%N :: rest)); [|lia | simpl; auto].
        reflexivity.
    + destruct Hparts as [[c' [r' [Ej' Hc']]] Hrest]; [discriminate|].
      destruct parts as [|jy parts'];
        [cbn [mapM] in Ep; apply bind_ok in Ep as [? [_ Ep]];
         apply bind_ok in Ep as [? [_ Ep]]; discriminate|].
      rewrite join_cons2. split.
      * exists c, (r ++ [44%N] ++ join [44%N] (jy :: parts')).
        split; [now rewrite Ejx | exact Hc].
      * intros fuel rest Hfuel.
        change (elems_cost (x :: y :: l'))
          with (S (cost x + elems_cost (y :: l'))) in Hfuel.
        destruct fuel as [|f]; [lia|]. cbn [parse_elems].
        rewrite <- !app_assoc. cbn [app].
        rewrite (Hscan f (44%N :: join [44%N] (jy :: parts') ++ 93%N :: rest));
          [|lia | simpl; auto].
        cbn [bind skip_ws is_ws N.eqb Pos.eqb orb].
        assert (Hsk : skip_ws (join [44%N] (jy :: parts') ++ 93%N :: rest)
                      = join [44%N] (jy :: parts') ++ 93%N :: rest).
        { rewrite Ej'. cbn [app].
          apply skip_ws_head, value_start_not_ws, Hc'. }
        rewrite Hsk, Hrest by lia. reflexivity.
Qed.

Lemma key_text_hashable (k : value) :
  hashable k = true -> key_text k = Ok (key_str k).
Proof. destruct k as [|[]| | | |]; try discriminate; reflexivity. Qed.

Lemma member_text (kt a tail : str) :
  (encode_str kt ++ py ":" ++ a) ++ tail
  = 34%N :: flat_map escape_char kt ++ 34%N :: 58%N :: a ++ tail.
Proof.
  unfold encode_str. change (py ":") with [58%N]. cbn [app].
  now rewrite <- !app_assoc.
Qed.

Lemma skip_ws_value (j tail : str) :
  (exists c r, j = c :: r /\ value_start c = true) ->
  skip_ws (j ++ tail) = j ++ tail.
Proof.
  intros [c [r [-> Hc]]]. cbn [app]. apply skip_ws_head, value_start_not_ws, Hc.
Qed.

(** Reading one member back, up to what follows its value. *)
Lemma parse_member_text (f : nat) (kt a tail : str) (x : value) :
  (exists c r, a = c :: r /\ value_start c = true) ->
  scan_once f (a ++ tail) = Ok (x, tail) ->
  parse_members (S f) ((encode_str kt ++ py ":" ++ a) ++ tail)
  = match skip_ws tail with
    | c' :: r4 =>
        if (c' =? 125)%N then Ok ([(kt, x)], r4)
        else if (c' =? 44)%N then
          ' (ps, rest) <- parse_members f (skip_ws r4) ;;
          Ok ((kt, x) :: ps, rest)
        else Raise JSONDecodeError
    | [] => Raise JSONDecodeError
    end.
Proof.
  intros Ha Hscan. rewrite member_text. cbn [parse_members N.eqb Pos.eqb].
  rewrite scanstring_body. cbn [bind skip_ws is_ws N.eqb Pos.eqb orb].
  rewrite (skip_ws_value a tail Ha), Hscan. reflexivity.
Qed.

Lemma parse_members_join (d : items) :
  Forall (fun kv => reads_back (snd kv)) d ->
  forallb (fun kv => hashable (fst kv) && jsonable (snd kv)) d = true ->
  exists parts,
    mapM dumps_member d = Ok parts /\
    (d <> [] ->
     (exists r, join [44%N] parts = 34%N :: r) /\
     forall fuel rest,
       members_cost d <= fuel ->
       parse_members fuel (join [44%N] parts ++ 125%N :: rest)
       = Ok (map as_json_member d, rest)).
Proof.
  induction 1 as [|[k x] d Hx Hd IH]; intros Hj.
  - exists []. split; [reflexivity | congruence].
  - cbn [forallb fst snd] in Hj. apply andb_true_iff in Hj as [Hkx Hjd].
    apply andb_true_iff in Hkx as [Hk Hjx]. cbn [snd] in Hx.
    destruct (Hx Hjx) as [jx [Ex Hscan]].
    destruct (IH Hjd) as [parts [Ep Hparts]].
    pose proof (dumps_head x jx Ex) as Hhead.
    exists ((encode_str (key_str k) ++ py ":" ++ jx) :: parts).
    cbn [mapM]. unfold dumps_member at 1. cbn [fst snd].
    rewrite (key_text_hashable k Hk), Ex, Ep. split; [reflexivity|].
    intros _. destruct d as [|kv d'].
    + cbn [mapM] in Ep. injection Ep as <-. cbn [join]. split.
      * unfold encode_str. cbn [app]. eauto.
      * intros fuel rest Hfuel. cbn [members_cost fold_right snd] in Hfuel.
        destruct fuel as [|f]; [lia|].
        rewrite (parse_member_text f (key_str k) jx (125%N :: rest) (as_json x) Hhead).
        -- reflexivity.
        -- apply Hscan; [lia | simpl; auto].
    + destruct Hparts as [[r' Ej'] Hrest]; [discriminate|].
      destruct parts as [|m parts'];
        [cbn [mapM] in Ep; apply bind_ok in Ep as [? [_ Ep]];
         apply bind_ok in Ep as [? [_ Ep]]; discriminate|].
      rewrite join_cons2. split.
      * unfold encode_str. cbn [app]. eauto.
      * intros fuel rest Hfuel.
        change (members_cost ((k, x) :: kv :: d'))
          with (S (cost x + members_cost (kv :: d'))) in Hfuel.
        destruct fuel as [|f]; [lia|].
        replace (((encode_str (key_str k) ++ py ":" ++ jx)
                  ++ [44%N] ++ join [44%N] (m :: parts')) ++ 125%N :: rest)
          with ((encode_str (key_str k) ++ py ":" ++ jx)
                ++ 44%N :: join [44%N] (m :: parts') ++ 125%N :: rest)
          by (rewrite <- !app_assoc; reflexivity).
        rewrite (parse_member_text f (key_str k) jx
                   (44%N :: join [44%N] (m :: parts') ++ 125%N :: rest)
                   (as_json x) Hhead).
        -- cbn [skip_ws is_ws N.eqb Pos.eqb orb].
           assert (Hsk : skip_ws (join [44%N] (m :: parts') ++ 125%N :: rest)
                         = join [44%N] (m :: parts') ++ 125%N :: rest).
           { rewrite Ej'. cbn [app]. now apply skip_ws_head. }
           rewrite Hsk, Hrest by lia. reflexivity.
        -- apply Hscan; [lia | simpl; auto].
Qed.

(** Every structure [dumps] accepts is read back by the scanner. *)
Lemma reads_back_all (v : value) : reads_back v.
Proof.
  induction v as [|b|z|s|l IH|d IH] using value_ind; intros Hj.
  - exists (py "null"). split; [reflexivity|].
    intros [|f] rest Hf _; [simpl in Hf; lia | reflexivity].
  - destruct b.
    + exists (py "true"). split; [reflexivity|].
      intros [|f] rest Hf _; [simpl in Hf; lia | reflexivity].
    + exists (py "false"). split; [reflexivity|].
      intros [|f] rest Hf _; [simpl in Hf; lia | reflexivity].
  - exists (Z_to_str z). split; [reflexivity|].
    intros [|f] rest Hf Hend; [simpl in Hf; lia|].
    destruct (dumps_head (VInt z) (Z_to_str z) eq_refl) as [c [r [E Hc]]].
    rewrite E. cbn [app]. rewrite scan_once_number.
    + change (c :: r ++ rest) with ((c :: r) ++ rest). rewrite <- E.
      now apply scan_number_Z_to_str.
    + destruct z as [|p|p]; cbn [Z_to_str] in E.
      * injection E as <- _. now left.
      * destruct (N_to_str_head (Npos p)) as [c0 [r0 [E0 Hc0]]].
        rewrite E0 in E. injection E as <- _. now left.
      * injection E as <- _. now right.
  - exists (encode_str s). split; [reflexivity|].
    intros [|f] rest Hf _; [simpl in Hf; lia|].
    rewrite encode_str_app. cbn [scan_once N.eqb Pos.eqb].
    now rewrite scanstring_body.
  - cbn [jsonable] in Hj.
    destruct (parse_elems_join l IH Hj) as [parts [Ep Hparts]].
    rewrite dumps_list, Ep. cbn [bind]. eexists; split; [reflexivity|].
    intros [|f] rest Hf _; [simpl in Hf; lia|].
    cbn [app]. rewrite <- app_assoc. cbn [app scan_once N.eqb Pos.eqb].
    destruct l as [|x l'].
    + cbn [mapM] in Ep. injection Ep as <-. reflexivity.
    + destruct Hparts as [[c [r [Ej Hc]]] Hrest]; [discriminate|].
      assert (Hsk : skip_ws (join [44%N] parts ++ 93%N :: rest)
                    = join [44%N] parts ++ 93%N :: rest).
      { apply skip_ws_value. eauto. }
      rewrite Hsk, Hrest by (cbn [cost] in Hf; unfold elems_cost; lia).
      rewrite Ej. cbn [app].
      destruct (value_start_not_close c Hc) as [-> _]. reflexivity.
  - cbn [jsonable] in Hj.
    destruct (parse_members_join d IH Hj) as [parts [Ep Hparts]].
    rewrite dumps_dict, Ep. cbn [bind]. eexists; split; [reflexivity|].
    intros [|f] rest Hf _; [simpl in Hf; lia|].
    cbn [app]. rewrite <- app_assoc. cbn [app scan_once N.eqb Pos.eqb].
    destruct d as [|kv d'].
    + cbn [mapM] in Ep. injection Ep as <-. reflexivity.
    + destruct Hparts as [[r Ej] Hrest]; [discriminate|].
      assert (Hsk : skip_ws (join [44%N] parts ++ 125%N :: rest)
                    = join [44%N] parts ++ 125%N :: rest).
      { rewrite Ej. reflexivity. }
      rewrite Hsk, Hrest by (cbn [cost] in Hf; unfold members_cost; lia).
      rewrite Ej. reflexivity.
Qed.

(** *** The fuel [json_loads] gives is enough *)

Lemma join_length_cons2 (sep p q : str) (rest : list str) :
  length (join sep (p :: q :: rest))
  = length p + length sep + length (join sep (q :: rest)).
Proof. rewrite join_cons2, !length_app. lia. Qed.

Lemma elems_cost_bound (l : list value) (parts : list str) :
  Forall (fun x => forall j, dumps x = Ok j -> cost x <= 2 * length j) l ->
  mapM dumps l = Ok parts ->
  elems_cost l <= 2 * length (join [44%N] parts) + 1.
Proof.
  intros H. revert parts. induction H as [|x l Hx Hl IH]; intros parts Ep.
  - simpl. lia.
  - cbn [mapM] in Ep. apply bind_ok in Ep as [jx [Ex Ep]].
    apply bind_ok in Ep as [parts' [Ep' Ep]]. injection Ep as <-.
    specialize (Hx jx Ex). specialize (IH parts' Ep').
    change (elems_cost (x :: l)) with (S (cost x + elems_cost l)).
    destruct parts' as [|q rest].
    + destruct l as [|y l'].
      * cbn [join elems_cost fold_right]. lia.
      * cbn [mapM] in Ep'. apply bind_ok in Ep' as [? [_ Ep']].
        apply bind_ok in Ep' as [? [_ Ep']]. discriminate.
    + rewrite join_length_cons2. cbn [length]. lia.
Qed.

Lemma members_cost_bound (d : items) (parts : list str) :
  Forall (fun kv => forall j, dumps (snd kv) = Ok j ->
                              cost (snd kv) <= 2 * length j) d ->
  mapM dumps_member d = Ok parts ->
  members_cost d <= 2 * length (join [44%N] parts) + 1.
Proof.
  intros H. revert parts. induction H as [|[k x] d Hx Hd IH]; intros parts Ep.
  - simpl. lia.
  - cbn [mapM] in Ep. apply bind_ok in Ep as [m [Em Ep]].
    apply bind_ok in Ep as [parts' [Ep' Ep]]. injection Ep as <-.
    unfold dumps_member in Em. cbn [fst snd] in Em, Hx.
    apply bind_ok in Em as [kt [_ Em]]. apply bind_ok in Em as [jx [Ex Em]].
    injection Em as Em. specialize (Hx jx Ex). specialize (IH parts' Ep').
    change (members_cost ((k, x) :: d)) with (S (cost x + members_cost d)).
    assert (Hm : length jx <= length m).
    { rewrite <- Em. cbn [length]. rewrite !length_app. cbn [length]. lia. }
    clear Em.
    destruct parts' as [|q rest].
    + destruct d as [|kv d'].
      * cbn [join members_cost fold_right snd]. lia.
      * cbn [mapM] in Ep'. apply bind_ok in Ep' as [? [_ Ep']].
        apply bind_ok in Ep' as [? [_ Ep']]. discriminate.
    + rewrite join_length_cons2. cbn [length]. lia.
Qed.

Lemma cost_bound (v : value) (j : str) :
  dumps v = Ok j -> cost v <= 2 * length j.
Proof.
  revert j. induction v as [|b|z|s|l IH|d IH] using value_ind; intros j Hd;
    try (destruct (dumps_head _ j Hd) as [c [r [-> _]]]; cbn [cost length]; lia).
  - rewrite dumps_list in Hd. apply bind_ok in Hd as [parts [Ep Hd]].
    injection Hd as <-. pose proof (elems_cost_bound l parts IH Ep) as Hb.
    cbn [cost length]. rewrite length_app. cbn [length].
    fold (elems_cost l). lia.
  - rewrite dumps_dict in Hd. apply bind_ok in Hd as [parts [Ep Hd]].
    injection Hd as <-. pose proof (members_cost_bound d parts IH Ep) as Hb.
    cbn [cost length]. rewrite length_app. cbn [length].
    fold (members_cost d). lia.
Qed.

(** [json.loads(json.dumps(v))] is [v] with its keys as JSON writes them. *)
Lemma loads_dumps (v : value) :
  jsonable v = true ->
  exists j, dumps v = Ok j /\ json_loads j = Ok (as_json v).
Proof.
  intros Hj. destruct (reads_back_all v Hj) as [j [Ed Hscan]].
  exists j. split; [exact Ed|]. unfold json_loads.
  pose proof (dumps_head v j Ed) as Hhead.
  pose proof (skip_ws_value j [] Hhead) as Hsk. rewrite app_nil_r in Hsk.
  rewrite Hsk. specialize (Hscan (2 * length j + 1) []).
  rewrite app_nil_r in Hscan. rewrite Hscan; [reflexivity | | exact I].
  pose proof (cost_bound v j Ed). lia.
Qed.

(** *** Structures that come back unchanged *)

Lemma dict_set_fresh (acc : items) (k v : value) :
  Forall (fun kv => key_eqb (fst kv) k = false) acc ->
  dict_set acc k v = acc ++ [(k, v)].
Proof.
  induction 1 as [|[k' v'] acc Hk Hacc IH]; [reflexivity|].
  cbn [dict_set app]. cbn [fst] in Hk. now rewrite Hk, IH.
Qed.

Lemma distinct_keys_fresh (ks : list value) (k : value) (r : list value) :
  distinct_keys (ks ++ k :: r) = true ->
  Forall (fun k' => key_eqb k' k = false) ks.
Proof.
  induction ks as [|k' ks IH]; cbn [app distinct_keys]; intros H; [constructor|].
  apply andb_true_iff in H as [Hk' Hr]. constructor; [|now apply IH].
  apply negb_true_iff in Hk'. rewrite existsb_app in Hk'.
  apply orb_false_iff in Hk' as [_ Hk']. cbn [existsb] in Hk'.
  now apply orb_false_iff in Hk' as [Hk' _].
Qed.

Lemma dict_of_text_keyed (d acc : items) :
  forallb (fun kv => is_text (fst kv)) d = true ->
  Forall (fun kv => as_json (snd kv) = snd kv) d ->
  distinct_keys (map fst (acc ++ d)) = true ->
  fold_left (fun a kv => dict_set a (VStr (fst kv)) (snd kv))
    (map as_json_member d) acc
  = acc ++ d.
Proof.
  revert acc. induction d as [|[k x] d IH]; intros acc Ht Hx Hd.
  - now rewrite app_nil_r.
  - cbn [forallb fst] in Ht. apply andb_true_iff in Ht as [Hk Ht].
    inversion Hx as [|? ? Hx1 Hx2]; subst. cbn [snd] in Hx1.
    destruct k as [| | |s| |]; try discriminate.
    cbn [map fold_left as_json_member fst snd key_str key_text]. rewrite Hx1.
    rewrite map_app in Hd. cbn [map fst] in Hd.
    pose proof (distinct_keys_fresh _ _ _ Hd) as Hfresh.
    rewrite dict_set_fresh.
    + rewrite IH; [now rewrite <- app_assoc | exact Ht | exact Hx2 |].
      rewrite <- app_assoc, map_app. exact Hd.
    + apply Forall_forall. intros [k' v'] Hin. cbn [fst].
      rewrite Forall_forall in Hfresh. apply Hfresh.
      apply in_map_iff. now exists (k', v').
Qed.

Lemma text_keyed_as_json (v : value) :
  text_keyed v = true -> jsonable v = true /\ as_json v = v.
Proof.
  induction v as [|b|z|s|l IH|d IH] using value_ind; intros Ht;
    try (split; reflexivity).
  - cbn [text_keyed] in Ht. cbn [jsonable as_json].
    assert (H : forallb jsonable l = true /\ map as_json l = l).
    { induction IH as [|x l Hx Hl IHl]; [split; reflexivity|].
      cbn [forallb] in Ht. apply andb_true_iff in Ht as [Htx Htl].
      destruct (Hx Htx) as [Hjx Hax]. destruct (IHl Htl) as [Hjl Hal].
      cbn [forallb map]. now rewrite Hjx, Hjl, Hax, Hal. }
    destruct H as [-> ->]. split; reflexivity.
  - cbn [text_keyed] in Ht. apply andb_true_iff in Ht as [Ht Hd].
    assert (H : forallb (fun kv => hashable (fst kv) && jsonable (snd kv)) d = true
                /\ forallb (fun kv => is_text (fst kv)) d = true
                /\ Forall (fun kv => as_json (snd kv) = snd kv) d).
    { clear Hd.
      induction IH as [|[k x] d Hx Hl IHl]; [repeat split; constructor|].
      cbn [forallb fst snd] in Ht. apply andb_true_iff in Ht as [Htx Htl].
      apply andb_true_iff in Htx as [Hk Htx]. cbn [snd] in Hx.
      destruct (Hx Htx) as [Hjx Hax]. destruct (IHl Htl) as [Hjl [Hkl Hal]].
      cbn [forallb fst snd]. rewrite Hjx, Hjl, Hk, Hkl.
      destruct k; try discriminate. repeat split. now constructor. }
    destruct H as [Hj [Hk Ha]]. cbn [jsonable as_json]. split; [exact Hj|].
    f_equal. unfold dict_of_pairs.
    exact (dict_of_text_keyed d [] Hk Ha Hd).
Qed.

(** *** Compact separators *)

Lemma uint_to_str_no_ws (u : Decimal.uint) : existsb is_ws (uint_to_str u) = false.
Proof. induction u; cbn [uint_to_str existsb]; try rewrite IHu; reflexivity. Qed.

Lemma Z_to_str_no_ws (z : Z) : existsb is_ws (Z_to_str z) = false.
Proof.
  destruct z as [|p|p]; [reflexivity | apply uint_to_str_no_ws |].
  cbn [Z_to_str]. rewrite existsb_app. unfold N_to_str.
  now rewrite uint_to_str_no_ws.
Qed.

Lemma escape_char_no_ws (c : char) :
  (32 =? c)%N = false -> existsb is_ws (escape_char c) = false.
Proof.
  intros H32. apply N.eqb_neq in H32.
  destruct (N.ltb_spec c 32) as [Hlt | Hge].
  - apply control_chars in Hlt. simpl in Hlt.
    repeat (destruct Hlt as [<- | Hlt]; [reflexivity|]). contradiction.
  - unfold escape_char.
    destruct (N.eqb_spec c 34) as [-> | H34]; [reflexivity|].
    destruct (N.eqb_spec c 92) as [-> | H92]; [reflexivity|].
    destruct (N.eqb_spec c 10); [lia|]. destruct (N.eqb_spec c 13); [lia|].
    destruct (N.eqb_spec c 9); [lia|]. destruct (N.eqb_spec c 8); [lia|].
    destruct (N.eqb_spec c 12); [lia|]. destruct (N.ltb_spec c 32); [lia|].
    cbn [existsb]. unfold is_ws.
    rewrite !orb_false_iff, !N.eqb_neq. lia.
Qed.

Lemma encode_str_no_ws (s : str) :
  existsb (N.eqb 32) s = false -> existsb is_ws (encode_str s) = false.
Proof.
  intros H. unfold encode_str. cbn [existsb]. rewrite existsb_app.
  cbn [existsb]. change (is_ws 34) with false. cbn [orb].
  rewrite orb_false_r. induction s as [|c s IH]; [reflexivity|].
  cbn [existsb] in H. apply orb_false_iff in H as [Hc Hs].
  cbn [flat_map]. now rewrite existsb_app, (escape_char_no_ws c Hc), IH.
Qed.

Lemma join_no_ws (parts : list str) :
  Forall (fun p => existsb is_ws p = false) parts ->
  existsb is_ws (join [44%N] parts) = false.
Proof.
  induction 1 as [|p parts Hp Hparts IH]; [reflexivity|].
  destruct parts as [|q rest]; [exact Hp|].
  rewrite join_cons2, !existsb_app, Hp, IH. reflexivity.
Qed.

Lemma key_text_no_ws (k : value) (kt : str) :
  blank_free k = true -> key_text k = Ok kt ->
  existsb is_ws (encode_str kt) = false.
Proof.
  destruct k as [|[]|z|s| |]; cbn [key_text blank_free]; intros Hb H;
    try discriminate; injection H as <-; try reflexivity.
  - apply encode_str_no_ws. clear Hb.
    assert (H : existsb is_ws (Z_to_str z) = false) by apply Z_to_str_no_ws.
    induction (Z_to_str z) as [|c r IH]; [reflexivity|].
    cbn [existsb] in *. apply orb_false_iff in H as [Hc Hr].
    rewrite (IH Hr), orb_false_r. unfold is_ws in Hc.
    now apply orb_false_iff in Hc as [Hc _]; apply orb_false_iff in Hc as [Hc _];
      apply orb_false_iff in Hc as [Hc _]; rewrite N.eqb_sym.
  - apply encode_str_no_ws. now apply negb_true_iff.
Qed.

(** Between the tokens of the JSON text there is no white space: a
    structure without a space in its texts is written without any. *)
Lemma dumps_no_ws (v : value) (j : str) :
  blank_free v = true -> dumps v = Ok j -> existsb is_ws j = false.
Proof.
  revert j. induction v as [|b|z|s|l IH|d IH] using value_ind; intros j Hb Hd.
  - injection Hd as <-. reflexivity.
  - destruct b; injection Hd as <-; reflexivity.
  - injection Hd as <-. apply Z_to_str_no_ws.
  - injection Hd as <-. apply encode_str_no_ws. now apply negb_true_iff.
  - rewrite dumps_list in Hd. apply bind_ok in Hd as [parts [Ep Hd]].
    injection Hd as <-. cbn [existsb]. rewrite existsb_app.
    cbn [blank_free] in Hb.
    assert (Hparts : Forall (fun p => existsb is_ws p = false) parts).
    { clear - IH Hb Ep. revert parts Ep.
      induction IH as [|x l Hx Hl IHl]; intros parts Ep.
      - injection Ep as <-. constructor.
      - cbn [forallb] in Hb. apply andb_true_iff in Hb as [Hbx Hbl].
        cbn [mapM] in Ep. apply bind_ok in Ep as [jx [Ex Ep]].
        apply bind_ok in Ep as [parts' [Ep' Ep]]. injection Ep as <-.
        constructor; [now apply Hx | now apply IHl]. }
    now rewrite (join_no_ws parts Hparts).
  - rewrite dumps_dict in Hd. apply bind_ok in Hd as [parts [Ep Hd]].
    injection Hd as <-. cbn [existsb]. rewrite existsb_app.
    cbn [blank_free] in Hb.
    assert (Hparts : Forall (fun p => existsb is_ws p = false) parts).
    { clear - IH Hb Ep. revert parts Ep.
      induction IH as [|[k x] d Hx Hl IHl]; intros parts Ep.
      - injection Ep as <-. constructor.
      - cbn [forallb fst snd] in Hb. apply andb_true_iff in Hb as [Hbx Hbl].
        apply andb_true_iff in Hbx as [Hbk Hbx]. cbn [snd] in Hx.
        cbn [mapM] in Ep. apply bind_ok in Ep as [m [Em Ep]].
        apply bind_ok in Ep as [parts' [Ep' Ep]]. injection Ep as <-.
        unfold dumps_member in Em. cbn [fst snd] in Em.
        apply bind_ok in Em as [kt [Ek Em]]. apply bind_ok in Em as [jx [Ex Em]].
        injection Em as Em.
        constructor; [|now apply IHl].
        rewrite <- Em.
        change (34%N :: (flat_map escape_char kt ++ [34%N]) ++ 58%N :: jx)
          with (encode_str kt ++ 58%N :: jx).
        rewrite existsb_app, (key_text_no_ws k kt Hbk Ek). cbn [existsb orb].
        change (is_ws 58) with false. now apply Hx. }
    now rewrite (join_no_ws parts Hparts).
Qed.

(** *** The declarations *)

Lemma js_const_form (name : string) (v : value) (j : str) :
  dumps v = Ok j ->
  js_const name v = Ok (py "const " ++ py name ++ py "=" ++ j ++ py ";").
Proof. intros H. unfold js_const. now rewrite H. Qed.

Lemma escape_char_non_ascii (c : char) : (127 < c)%N -> escape_char c = [c].
Proof.
  intros H. unfold escape_char.
  destruct (N.eqb_spec c 34); [lia|]. destruct (N.eqb_spec c 92); [lia|].
  destruct (N.eqb_spec c 10); [lia|]. destruct (N.eqb_spec c 13); [lia|].
  destruct (N.eqb_spec c 9); [lia|]. destruct (N.eqb_spec c 8); [lia|].
  destruct (N.eqb_spec c 12); [lia|]. destruct (N.ltb_spec c 32); [lia|].
  reflexivity.
Qed.

(** C8, as stated, fails on the flat team mapping of the end-to-end example:
    its integer keys are read back as texts. *)
Lemma flat_team_keys_come_back_as_text :
  exists j,
    dumps example_mt = Ok j /\
    json_loads j = Ok (VDict [(text "1", text "Team A"); (text "2", text "Team B")]) /\
    json_loads j <> Ok example_mt.
Proof.
  eexists. split; [reflexivity|]. split; [vm_compute; reflexivity|].
  vm_compute. discriminate.
Qed.

(** C8 (as amended). Each declaration is [const NAME=JSON;], the JSON text
    written without white space between its tokens and with the characters
    above 127 as they are; read back, the text gives the structure with
    every key replaced by its JSON text, which is the structure itself when
    its keys are texts; so for the end-to-end example, whose rounds come back
    unchanged and whose team ids come back as the texts "1", "2" and "3". *)
Theorem serialized_constants_round_trip :
  (forall name v j,
      dumps v = Ok j ->
      js_const name v = Ok (py "const " ++ py name ++ py "=" ++ j ++ py ";")) /\
  (forall c, (127 < c)%N -> escape_char c = [c]) /\
  (forall v j, blank_free v = true -> dumps v = Ok j ->
               existsb is_ws j = false) /\
  (forall v, jsonable v = true ->
             exists j, dumps v = Ok j /\ json_loads j = Ok (as_json v)) /\
  (forall v, text_keyed v = true ->
             exists j, dumps v = Ok j /\ json_loads j = Ok v) /\
  (text_keyed example_rounds = true /\
   js_const "MINI_MATCHES" example_rounds
   = Ok (pyq "const MINI_MATCHES=[{'n':'Jornada 1','g':0,'m':[{'h':1,'v':2,'d':'2024-03-10T10:00','s':1,'f':''}]},{'n':'Jornada 2','g':0,'m':[{'h':2,'v':1,'d':'','s':5,'f':'Campo Norte'}]}];") /\
   js_const "MT" example_mt
   = Ok (pyq "const MT={'1':'Team A','2':'Team B'};") /\
   as_json example_mt
   = VDict [(text "1", text "Team A"); (text "2", text "Team B")] /\
   js_const "PT" example_pt
   = Ok (pyq "const PT={'3':{'n':'Team C','g':'B'}};") /\
   as_json example_pt
   = VDict [(text "3", pt_entry (text "Team C") (text "B"))]).
Proof.
  split; [exact js_const_form|]. split; [exact escape_char_non_ascii|].
  split; [exact dumps_no_ws|]. split; [exact loads_dumps|]. split.
  - intros v Ht. destruct (text_keyed_as_json v Ht) as [Hj Ha].
    destruct (loads_dumps v Hj) as [j [Hd Hl]]. exists j. now rewrite <- Ha at 2.
  - repeat split; vm_compute; reflexivity.
Qed.

(* ================================================================= *)
(** ** The run that changes nothing *)

(** After the fetches, a substitution that gives back the text of the
    document ends the run with status 1, whether or not the anchors were
    found. *)
Lemma unchanged_text_exits_1 (w : world) (fetches : list event)
  (a b c d : value) (html : str) :
  fetch_all w = (fetches, Ok (a, b, c, d)) ->
  index_html w = Some html ->
  substitute a b c d html = Ok html ->
  exit_status (main w) = 1%Z /\ disk (main w) = Some html.
Proof.
  intros Hf Hd Hs. unfold main. rewrite Hf, Hd, Hs, str_eqb_refl.
  split; reflexivity.
Qed.

(* ================================================================= *)
(** ** The scanner never runs out of fuel *)

Lemma skip_ws_length (s : str) : length (skip_ws s) <= length s.
Proof.
  induction s as [|c r IH]; [apply le_n|]. cbn [skip_ws].
  destruct (is_ws c); cbn [length]; lia.
Qed.

Lemma scanstring_consumes (n : nat) :
  forall s t rest,
    length s <= n -> scanstring s = Ok (t, rest) -> length rest < length s.
Proof.
  induction n as [|n IH]; intros s t rest Hn H.
  - destruct s; [discriminate | simpl in Hn; lia].
  - destruct s as [|c r]; [discriminate|]. cbn [length] in Hn.
    assert (Hrec : forall s' x t' rest',
               length s' <= n ->
               (' (t0, r0) <- scanstring s' ;; Ok (x :: t0, r0)) = Ok (t', rest') ->
               length rest' < length s').
    { intros s' x t' rest' Hs' H'. apply bind_ok in H' as [[t0 r0] [E H']].
      injection H' as _ <-. exact (IH s' t0 r0 Hs' E). }
    cbn [scanstring] in H.
    destruct (c =? 34)%N; [injection H as _ <-; cbn [length]; lia|].
    destruct (c =? 92)%N.
    + destruct r as [|e r1]; [discriminate|].
      destruct (e =? 117)%N.
      * destruct r1 as [|h1 [|h2 [|h3 [|h4 r2]]]]; try discriminate.
        destruct (hex4 h1 h2 h3 h4) as [u|]; [|discriminate].
        cbn [length] in *.
        assert (Halone : (' (t0, r0) <- scanstring r2 ;; Ok (u :: t0, r0))
                         = Ok (t, rest) -> length rest < S (S (S (S (S (S (length r2))))))).
        { intros H'. apply Hrec in H'; lia. }
        destruct (is_high_surrogate u); [|now apply Halone].
        destruct r2 as [|b [|u' [|l1 [|l2 [|l3 [|l4 r3]]]]]]; try now apply Halone.
        destruct ((b =? 92)%N && (u' =? 117)%N); [|now apply Halone].
        destruct (hex4 l1 l2 l3 l4) as [lo|]; [|discriminate].
        destruct (is_low_surrogate lo); [|now apply Halone].
        apply Hrec in H; cbn [length] in *; lia.
      * destruct (unescape e) as [x|]; [|discriminate].
        apply Hrec in H; cbn [length] in *; lia.
    + destruct (c <? 32)%N; [discriminate|].
      apply Hrec in H; cbn [length]; lia.
Qed.

Lemma scanstring_shorter (s t rest : str) :
  scanstring s = Ok (t, rest) -> length rest < length s.
Proof. apply (scanstring_consumes (length s)). apply le_n. Qed.

Lemma take_digits_length (s : str) : length (snd (take_digits s)) <= length s.
Proof.
  induction s as [|c r IH]; [apply le_n|]. cbn [take_digits].
  destruct (is_digit c); [|apply le_n].
  destruct (take_digits r) as [u rest]. cbn [snd length] in *. lia.
Qed.

Lemma scan_natural_shorter (s : str) (n : N) (rest : str) :
  scan_natural s = Ok (n, rest) -> length rest < length s.
Proof.
  destruct s as [|c r]; [discriminate|]. cbn [scan_natural].
  destruct (c =? 48)%N; [intros [= _ <-]; cbn [length]; lia|].
  destruct (is_digit c) eqn:Hc; [|discriminate].
  cbn [take_digits]. rewrite Hc.
  pose proof (take_digits_length r) as Hl.
  destruct (take_digits r) as [u rest']. intros [= _ <-].
  cbn [snd length] in *. lia.
Qed.

Lemma scan_number_shorter (s : str) (v : value) (rest : str) :
  scan_number s = Ok (v, rest) -> length rest < length s.
Proof.
  destruct s as [|c r]; [discriminate|]. cbn [scan_number].
  destruct (c =? 45)%N.
  - destruct (startswith r (py "Infinity")); [discriminate|].
    destruct (scan_natural r) as [[n rest']|] eqn:E; [|discriminate].
    cbn [bind]. destruct (float_follows rest'); [discriminate|].
    intros [= _ <-]. apply scan_natural_shorter in E. cbn [length]. lia.
  - destruct (scan_natural (c :: r)) as [[n rest']|] eqn:E; [|discriminate].
    cbn [bind]. destruct (float_follows rest'); [discriminate|].
    intros [= _ <-]. now apply scan_natural_shorter in E.
Qed.

Lemma skip_ws_cons_length (s : str) (c : char) (r : str) :
  skip_ws s = c :: r -> length r < length s.
Proof.
  intros H. pose proof (skip_ws_length s) as Hl. rewrite H in Hl.
  cbn [length] in Hl. lia.
Qed.

Ltac skipped_shorter H :=
  injection H as _ <-;
  repeat match goal with
         | |- context [match ?l with [] => _ | _ :: _ => _ end] => destruct l
         end;
  cbn [length]; lia.

Lemma scanner_consumes (fuel : nat) :
  consumes (scan_once fuel) /\ consumes (parse_elems fuel)
  /\ consumes (parse_members fuel).
Proof.
  induction fuel as [|f [IHs [IHe IHm]]].
  - repeat split; intros s x rest H; discriminate.
  - split; [|split]; intros s x rest H.
    + destruct s as [|c r]; [discriminate|]. cbn [scan_once] in H.
      cbn [length].
      destruct (c =? 34)%N.
      { apply bind_ok in H as [[t rest'] [E H]]. injection H as _ <-.
        apply scanstring_shorter in E. lia. }
      destruct (c =? 123)%N.
      { destruct (skip_ws r) as [|c' r'] eqn:Er; [discriminate|].
        pose proof (skip_ws_cons_length r c' r' Er) as Hl.
        destruct (c' =? 125)%N; [injection H as _ <-; lia|].
        apply bind_ok in H as [[ps rest'] [E H]]. injection H as _ <-.
        apply IHm in E. rewrite <- Er in E.
        pose proof (skip_ws_length r). lia. }
      destruct (c =? 91)%N.
      { destruct (skip_ws r) as [|c' r'] eqn:Er; [discriminate|].
        pose proof (skip_ws_cons_length r c' r' Er) as Hl.
        destruct (c' =? 93)%N; [injection H as _ <-; lia|].
        apply bind_ok in H as [[vs rest'] [E H]]. injection H as _ <-.
        apply IHe in E. rewrite <- Er in E.
        pose proof (skip_ws_length r). lia. }
      destruct (startswith (c :: r) (py "null")); [skipped_shorter H|].
      destruct (startswith (c :: r) (py "true")); [skipped_shorter H|].
      destruct (startswith (c :: r) (py "false")); [skipped_shorter H|].
      destruct (startswith (c :: r) (py "NaN")); [discriminate|].
      destruct (startswith (c :: r) (py "Infinity")); [discriminate|].
      apply scan_number_shorter in H. cbn [length] in H. exact H.
    + cbn [parse_elems] in H.
      apply bind_ok in H as [[v r1] [E H]]. apply IHs in E.
      destruct (skip_ws r1) as [|c r2] eqn:Er; [discriminate|].
      pose proof (skip_ws_cons_length r1 c r2 Er) as Hl.
      destruct (c =? 93)%N; [injection H as _ <-; lia|].
      destruct (c =? 44)%N; [|discriminate].
      apply bind_ok in H as [[vs rest'] [E' H]]. injection H as _ <-.
      apply IHe in E'. pose proof (skip_ws_length r2). lia.
    + cbn [parse_members] in H.
      destruct s as [|q r]; [discriminate|].
      destruct (q =? 34)%N; [|discriminate].
      apply bind_ok in H as [[k r1] [E H]]. apply scanstring_shorter in E.
      destruct (skip_ws r1) as [|c r2] eqn:Er; [discriminate|].
      pose proof (skip_ws_cons_length r1 c r2 Er) as Hl.
      destruct (c =? 58)%N; [|discriminate].
      apply bind_ok in H as [[v r3] [E' H]]. apply IHs in E'.
      pose proof (skip_ws_length r2) as Hl2.
      destruct (skip_ws r3) as [|c' r4] eqn:Er3; [discriminate|].
      pose proof (skip_ws_cons_length r3 c' r4 Er3) as Hl3.
      cbn [length].
      destruct (c' =? 125)%N; [injection H as _ <-; lia|].
      destruct (c' =? 44)%N; [|discriminate].
      apply bind_ok in H as [[ps rest'] [E'' H]]. injection H as _ <-.
      apply IHm in E''. pose proof (skip_ws_length r4). lia.
Qed.

Lemma bind_keeps_fuel {A B} (c : result A) (k : A -> result B) :
  c <> Raise RecursionError ->
  (forall a, c = Ok a -> k a <> Raise RecursionError) ->
  bind c k <> Raise RecursionError.
Proof.
  destruct c as [a|e]; cbn [bind]; intros Hc Hk; [now apply Hk|].
  intros [= ->]. now apply Hc.
Qed.

Lemma scanstring_fuel_free (n : nat) :
  forall s, length s <= n -> scanstring s <> Raise RecursionError.
Proof.
  induction n as [|n IH]; intros s Hn.
  - destruct s; [discriminate | simpl in Hn; lia].
  - destruct s as [|c r]; [discriminate|]. cbn [length] in Hn.
    assert (Hrec : forall s' x,
               length s' <= n ->
               (' (t0, r0) <- scanstring s' ;; Ok (x :: t0, r0))
               <> Raise RecursionError).
    { intros s' x Hs'. apply bind_keeps_fuel; [now apply IH|].
      intros [t0 r0] _. discriminate. }
    cbn [scanstring].
    destruct (c =? 34)%N; [discriminate|].
    destruct (c =? 92)%N.
    + destruct r as [|e r1]; [discriminate|].
      destruct (e =? 117)%N.
      * destruct r1 as [|h1 [|h2 [|h3 [|h4 r2]]]]; try discriminate.
        destruct (hex4 h1 h2 h3 h4) as [u|]; [|discriminate].
        cbn [length] in Hn.
        assert (Halone : (' (t0, r0) <- scanstring r2 ;; Ok (u :: t0, r0))
                         <> Raise RecursionError) by (apply Hrec; lia).
        destruct (is_high_surrogate u); [|exact Halone].
        destruct r2 as [|b [|u' [|l1 [|l2 [|l3 [|l4 r3]]]]]]; try exact Halone.
        destruct ((b =? 92)%N && (u' =? 117)%N); [|exact Halone].
        destruct (hex4 l1 l2 l3 l4) as [lo|]; [|discriminate].
        destruct (is_low_surrogate lo); [|exact Halone].
        apply Hrec. cbn [length] in Hn. lia.
      * destruct (unescape e) as [x|]; [|discriminate].
        apply Hrec. cbn [length] in Hn. lia.
    + destruct (c <? 32)%N; [discriminate|]. apply Hrec. lia.
Qed.

Lemma scan_number_fuel_free (s : str) : scan_number s <> Raise RecursionError.
Proof.
  assert (Hnat : forall r, scan_natural r <> Raise RecursionError).
  { intros [|c r]; [discriminate|]. cbn [scan_natural].
    destruct (c =? 48)%N; [discriminate|].
    destruct (is_digit c); [|discriminate].
    destruct (take_digits (c :: r)). discriminate. }
  destruct s as [|c r]; [discriminate|]. cbn [scan_number].
  destruct (c =? 45)%N.
  - destruct (startswith r (py "Infinity")); [discriminate|].
    apply bind_keeps_fuel; [apply Hnat|]. intros [n rest] _.
    destruct (float_follows rest); discriminate.
  - apply bind_keeps_fuel; [apply Hnat|]. intros [n rest] _.
    destruct (float_follows rest); discriminate.
Qed.

Lemma scanner_fuelled (fuel : nat) :
  fuelled (fun s => 2 * length s + 1) scan_once fuel /\
  fuelled (fun s => 2 * length s + 2) parse_elems fuel /\
  fuelled (fun s => 2 * length s + 2) parse_members fuel.
Proof.
  induction fuel as [|f [IHs [IHe IHm]]].
  - repeat split; intros s Hs; lia.
  - destruct (scanner_consumes f) as [Cs [Ce Cm]].
    split; [|split]; intros s Hs.
    + destruct s as [|c r]; [discriminate|]. cbn [scan_once length] in *.
      destruct (c =? 34)%N.
      { apply bind_keeps_fuel; [now apply (scanstring_fuel_free (length r))|].
        intros [t rest] _. discriminate. }
      destruct (c =? 123)%N.
      { destruct (skip_ws r) as [|c' r'] eqn:Er; [discriminate|].
        destruct (c' =? 125)%N; [discriminate|].
        apply bind_keeps_fuel.
        - apply IHm. rewrite <- Er. pose proof (skip_ws_length r). lia.
        - intros [ps rest] _. discriminate. }
      destruct (c =? 91)%N.
      { destruct (skip_ws r) as [|c' r'] eqn:Er; [discriminate|].
        destruct (c' =? 93)%N; [discriminate|].
        apply bind_keeps_fuel.
        - apply IHe. rewrite <- Er. pose proof (skip_ws_length r). lia.
        - intros [vs rest] _. discriminate. }
      destruct (startswith (c :: r) (py "null")); [discriminate|].
      destruct (startswith (c :: r) (py "true")); [discriminate|].
      destruct (startswith (c :: r) (py "false")); [discriminate|].
      destruct (startswith (c :: r) (py "NaN")); [discriminate|].
      destruct (startswith (c :: r) (py "Infinity")); [discriminate|].
      apply scan_number_fuel_free.
    + cbn [parse_elems]. apply bind_keeps_fuel; [apply IHs; lia|].
      intros [v r1] E. apply Cs in E.
      destruct (skip_ws r1) as [|c r2] eqn:Er; [discriminate|].
      pose proof (skip_ws_cons_length r1 c r2 Er) as Hl.
      destruct (c =? 93)%N; [discriminate|].
      destruct (c =? 44)%N; [|discriminate].
      apply bind_keeps_fuel.
      * apply IHe. pose proof (skip_ws_length r2). lia.
      * intros [vs rest] _. discriminate.
    + cbn [parse_members].
      destruct s as [|q r]; [discriminate|]. cbn [length] in Hs.
      destruct (q =? 34)%N; [|discriminate].
      apply bind_keeps_fuel; [now apply (scanstring_fuel_free (length r))|].
      intros [k r1] E. apply scanstring_shorter in E.
      destruct (skip_ws r1) as [|c r2] eqn:Er; [discriminate|].
      pose proof (skip_ws_cons_length r1 c r2 Er) as Hl.
      destruct (c =? 58)%N; [|discriminate].
      pose proof (skip_ws_length r2) as Hl2.
      apply bind_keeps_fuel; [apply IHs; lia|].
      intros [v r3] E'. apply Cs in E'.
      destruct (skip_ws r3) as [|c' r4] eqn:Er3; [discriminate|].
      pose proof (skip_ws_cons_length r3 c' r4 Er3) as Hl3.
      destruct (c' =? 125)%N; [discriminate|].
      destruct (c' =? 44)%N; [|discriminate].
      apply bind_keeps_fuel.
      * apply IHm. pose proof (skip_ws_length r4). lia.
      * intros [ps rest] _. discriminate.
Qed.

(** The fuel [json_loads] gives its scanner is never used up. *)
Lemma json_loads_fuel (s : str) : json_loads s <> Raise RecursionError.
Proof.
  unfold json_loads. apply bind_keeps_fuel.
  - apply (scanner_fuelled (2 * length s + 1)).
    pose proof (skip_ws_length s). lia.
  - intros [v rest] _. destruct (is_empty (skip_ws rest)); discriminate.
Qed.

(* ================================================================= *)
(** * Further properties of the program *)

(** ** fmt_date *)

(** X1. The formatter answers a beginning of the timestamp, of at most 16
    characters, and formatting its answer again changes nothing. *)
Theorem fmt_date_prefix_idempotent (s : str) :
  exists t,
    fmt_date (VStr s) = Ok t /\
    begins_with t s /\ length t <= 16 /\ fmt_date (VStr t) = Ok t.
Proof.
  rewrite fmt_date_str.
  destruct (is_empty s || startswith s (py "0001") || startswith s (py "1901"))
    eqn:E.
  - exists []. repeat split; [now exists s | cbn; lia].
  - apply orb_false_iff in E as [E H2]. apply orb_false_iff in E as [H0 H1].
    exists (firstn 16 s).
    assert (Hpre : begins_with (firstn 16 s) s).
    { exists (skipn 16 s). now rewrite firstn_skipn. }
    assert (Hlen : length (firstn 16 s) <= 16) by (rewrite length_firstn; lia).
    repeat split; [exact Hpre | exact Hlen|].
    rewrite fmt_date_str.
    assert (Hkeep : forall p, startswith s p = false ->
                              startswith (firstn 16 s) p = false).
    { intros p Hp. apply startswith_false_iff. intros [r Hr].
      apply startswith_false_iff in Hp. apply Hp.
      destruct Hpre as [r' Hr']. exists (r ++ r').
      now rewrite Hr', Hr, app_assoc. }
    assert (Hne : is_empty (firstn 16 s) = false)
      by (destruct s; [discriminate | reflexivity]).
    rewrite (Hkeep _ H1), (Hkeep _ H2), Hne. cbn [orb].
    f_equal. apply firstn_all2. exact Hlen.
Qed.

(** X2. The formatter raises exactly on a start time that is neither empty
    nor a text (a number, [True], a list or an object with content), and
    what it raises then is [AttributeError]. *)
Theorem fmt_date_raises_iff (v : value) (e : exn) :
  fmt_date v = Raise e <->
  truthy v = true /\ is_text v = false /\ e = AttributeError.
Proof.
  unfold fmt_date. destruct (truthy v) eqn:Ht; cbn [negb].
  - destruct v as [| | |s| |]; cbn [is_text];
      try (split; [intros [= <-]; now repeat split | now intros [_ [_ ->]]]).
    split; [|intros [_ [H _]]; discriminate].
    destruct (startswith s (py "0001") || startswith s (py "1901")); discriminate.
  - split; [discriminate | intros [H _]; discriminate].
Qed.

(* ================================================================= *)
(** ** transform_matches *)

(** X3. The Transformer accepts a match record exactly when it is an object
    whose start time, if any, is empty or a text and whose field, if any,
    is empty or an object; on every other record it raises. *)
Theorem transform_match_accepts_iff (m : value) :
  (exists r, transform_match m = Ok r) <-> match_ok m = true.
Proof.
  split.
  - intros [r Hr]. destruct (match_ok m) eqn:E; [reflexivity|].
    destruct (transform_match_raises m E) as [e He]. congruence.
  - intros H. destruct (transform_match_defaults m H) as [r [Hr _]]. eauto.
Qed.

(* ================================================================= *)
(** ** build_mt *)

Lemma for_each_raises {S A} (body : S -> A -> result S) (l : list A) (x : A) :
  In x l ->
  (forall s, exists e, body s x = Raise e) ->
  forall s, exists e, for_each body l s = Raise e.
Proof.
  intros Hin Hx. induction l as [|y l IH]; [destruct Hin|]. intros s.
  cbn [for_each]. destruct Hin as [-> | Hin].
  - destruct (Hx s) as [e ->]. now exists e.
  - destruct (body s y) as [s'|e]; [apply (IH Hin) | now exists e].
Qed.

Lemma team_ok_fields (t : value) :
  team_ok t = true ->
  exists d, t = VDict d /\
            dict_lookup d (VStr (py "id")) = Some (team_id t) /\
            dict_lookup d (VStr (py "name")) = Some (team_name t) /\
            hashable (team_id t) = true.
Proof.
  destruct t as [| | | | |d]; try discriminate.
  unfold team_ok, team_id, team_name, get_or.
  destruct (dict_lookup d (VStr (py "id"))) as [i|] eqn:Ei; [|discriminate].
  destruct (dict_lookup d (VStr (py "name"))) as [n|] eqn:En; [|discriminate].
  intros H. exists d. repeat split; assumption.
Qed.

Lemma build_mt_loop (teams : list value) (acc : items) :
  forallb team_ok teams = true ->
  distinct_keys (map fst acc ++ map team_id teams) = true ->
  for_each (fun mt team =>
              n <- py_getitem team "name" ;;
              i <- py_getitem team "id" ;;
              dict_setitem mt i n) teams acc
  = Ok (acc ++ map team_item teams).
Proof.
  revert acc. induction teams as [|t teams IH]; intros acc Hok Hd.
  - cbn [for_each map]. now rewrite app_nil_r.
  - cbn [forallb] in Hok. apply andb_true_iff in Hok as [Ht Hok].
    destruct (team_ok_fields t Ht) as [d [-> [Hi [Hn Hh]]]].
    cbn [for_each]. unfold py_getitem at 1 2. rewrite Hn, Hi. cbn [bind].
    unfold dict_setitem. rewrite Hh. cbn [bind map] in *.
    pose proof (distinct_keys_fresh _ _ _ Hd) as Hfresh.
    rewrite dict_set_fresh.
    + rewrite IH; [now rewrite <- app_assoc | exact Hok|].
      rewrite map_app, <- app_assoc. exact Hd.
    + apply Forall_forall. intros [k' v'] Hin. cbn [fst].
      rewrite Forall_forall in Hfresh. apply Hfresh.
      apply in_map_iff. now exists (k', v').
Qed.

(** X4. On a tournament whose team records each have a name and an id that
    can be a key, no two ids equal, the flat mapping is the list of the
    teams, id to name, in the order of the tournament; without a teams list
    it is empty. *)
Theorem build_mt_lists_teams (td : items) (teams : list value) :
  get_or td "teams" (VList []) = VList teams ->
  forallb team_ok teams = true ->
  distinct_keys (map team_id teams) = true ->
  build_mt (VDict td) = Ok (VDict (map team_item teams)).
Proof.
  intros Ht Hok Hd. unfold build_mt. rewrite py_get_dict, Ht.
  cbn [bind py_iter]. now rewrite (build_mt_loop teams [] Hok Hd).
Qed.

(** X5. A team record that is not an object, lacks its name or its id, or
    has an id that cannot be a key is not dropped: the flat resolver
    raises. *)
Theorem build_mt_rejects_malformed (td : items) (teams : list value)
  (t : value) :
  get_or td "teams" (VList []) = VList teams ->
  In t teams -> team_ok t = false ->
  exists e, build_mt (VDict td) = Raise e.
Proof.
  intros Ht Hin Hbad. unfold build_mt. rewrite py_get_dict, Ht.
  cbn [bind py_iter].
  destruct (for_each_raises
              (fun mt team =>
                 n <- py_getitem team "name" ;;
                 i <- py_getitem team "id" ;;
                 dict_setitem mt i n) teams t Hin) with (s := @nil (value * value))
    as [e He].
  - intros s. destruct t as [| | | | |d]; try (eexists; reflexivity).
    cbn [team_ok] in Hbad. unfold py_getitem.
    destruct (dict_lookup d (VStr (py "name"))) as [n|];
      destruct (dict_lookup d (VStr (py "id"))) as [i|];
      cbn [bind]; try (eexists; reflexivity).
    unfold dict_setitem. rewrite Hbad. eexists; reflexivity.
  - rewrite He. now exists e.
Qed.

(* ================================================================= *)
(** ** build_pt *)

(** X6. In the fallback too a malformed team record is not dropped: without
    a groups structure, whatever the previous mapping, the grouped resolver
    raises. *)
Theorem build_pt_fallback_rejects_malformed (td : items) (ex : value)
  (teams : list value) (t : value) :
  no_groups td ->
  get_or td "teams" (VList []) = VList teams ->
  In t teams -> team_ok t = false ->
  exists e, build_pt (VDict td) ex = Raise e.
Proof.
  intros Hng Ht Hin Hbad. unfold build_pt.
  rewrite (from_groups_none td Hng). cbn [bind truthy negb].
  unfold fallback. rewrite py_get_dict, Ht. cbn [bind py_iter].
  destruct (for_each_raises (add_fallback ex) teams t Hin)
    with (s := @nil (value * value)) as [e He].
  - intros s. unfold add_fallback.
    destruct t as [| | | | |d]; try (eexists; reflexivity).
    cbn [team_ok] in Hbad. unfold py_getitem.
    destruct (dict_lookup d (VStr (py "id"))) as [i|];
      [|eexists; reflexivity].
    cbn [bind]. destruct (previous_group ex i) as [g|e];
      [|eexists; reflexivity].
    cbn [bind].
    destruct (dict_lookup d (VStr (py "name"))) as [n|];
      [|eexists; reflexivity].
    cbn [bind]. unfold dict_setitem. rewrite Hbad. eexists; reflexivity.
  - rewrite He. now exists e.
Qed.

(** X7. A group entry that is not an object, or whose name is given but is
    not a text (a null name, a number), makes the grouped resolver raise:
    such a name is not replaced by a default. *)
Theorem build_pt_rejects_untrimmable_name (td : items) (ex : value)
  (groups : list value) (g : value) :
  get_or td "groups" VNone = VList groups ->
  In g groups -> group_name_ok g = false ->
  exists e, build_pt (VDict td) ex = Raise e.
Proof.
  intros Hg Hin Hbad. unfold build_pt, from_groups, find_groups.
  rewrite py_get_dict, Hg. cbn [bind].
  assert (Ht : truthy (VList groups) = true) by (destruct groups; [destruct Hin | reflexivity]).
  rewrite Ht. cbn [bind py_iter]. rewrite Ht. cbn [bind py_iter].
  destruct (for_each_raises add_group groups g Hin)
    with (s := @nil (value * value)) as [e He].
  - intros s. unfold add_group, group_letter_of.
    destruct g as [| | | | |gd]; try (eexists; reflexivity).
    rewrite py_get_dict. cbn [bind group_name_ok] in *.
    destruct (get_or gd "name" (VStr [])); try discriminate;
      eexists; reflexivity.
  - rewrite He. now exists e.
Qed.

(* ================================================================= *)
(** ** transform_matches, then js_const *)

Lemma text_keyed_lookup (d : items) (k v : value) :
  text_keyed (VDict d) = true -> dict_lookup d k = Some v ->
  text_keyed v = true.
Proof.
  cbn [text_keyed]. intros H. apply andb_true_iff in H as [H _].
  induction d as [|[k' v'] d IH]; [discriminate|].
  cbn [forallb fst snd] in H. apply andb_true_iff in H as [Hkv Hd].
  apply andb_true_iff in Hkv as [_ Hv]. cbn [dict_lookup].
  destruct (key_eqb k' k); [now intros [= <-] | now apply IH].
Qed.

Lemma text_keyed_get_or (d : items) (k : string) (default : value) :
  text_keyed (VDict d) = true -> text_keyed default = true ->
  text_keyed (get_or d k default) = true.
Proof.
  intros Hd Hdef. unfold get_or.
  destruct (dict_lookup d (VStr (py k))) as [v|] eqn:E; [|exact Hdef].
  exact (text_keyed_lookup d _ v Hd E).
Qed.

Lemma text_keyed_py_or (a b : value) :
  text_keyed a = true -> text_keyed b = true -> text_keyed (py_or a b) = true.
Proof. intros Ha Hb. unfold py_or. now destruct (truthy a). Qed.

Lemma transform_match_text_keyed (m r : value) :
  text_keyed m = true -> transform_match m = Ok r -> text_keyed r = true.
Proof.
  intros Hm H. destruct m as [| | | | |md]; try discriminate.
  unfold transform_match in H. rewrite !py_get_dict in H. cbn [bind] in H.
  apply bind_ok in H as [d [_ H]]. apply bind_ok in H as [f [Hf H]].
  injection H as <-.
  assert (Hfield : text_keyed (py_or (get_or md "field" VNone) (VDict [])) = true).
  { apply text_keyed_py_or; [now apply text_keyed_get_or | reflexivity]. }
  assert (Hft : text_keyed f = true).
  { destruct (truthy (py_or (get_or md "field" VNone) (VDict []))).
    - apply bind_ok in Hf as [n [Hn Hf]]. injection Hf as <-.
      destruct (py_or (get_or md "field" VNone) (VDict [])) as [| | | | |fd];
        try discriminate.
      rewrite py_get_dict in Hn. injection Hn as <-.
      apply text_keyed_py_or; [now apply text_keyed_get_or | reflexivity].
    - now injection Hf as <-. }
  cbn [text_keyed forallb fst snd is_text andb].
  rewrite Hft, (text_keyed_get_or md "status" (VInt 5) Hm eq_refl).
  rewrite !text_keyed_py_or; try reflexivity; now apply text_keyed_get_or.
Qed.

Lemma mapM_forallb {A B} (f : A -> result B) (P : A -> bool) (Q : B -> bool)
  (l : list A) (ys : list B) :
  (forall x y, P x = true -> f x = Ok y -> Q y = true) ->
  forallb P l = true -> mapM f l = Ok ys -> forallb Q ys = true.
Proof.
  intros Hf. revert ys. induction l as [|x l IH]; intros ys Hl H.
  - now injection H as <-.
  - cbn [forallb] in Hl. apply andb_true_iff in Hl as [Hx Hl].
    cbn [mapM] in H. apply bind_ok in H as [y [Ey H]].
    apply bind_ok in H as [ys' [Eys H]]. injection H as <-.
    cbn [forallb]. now rewrite (Hf x y Hx Ey), (IH ys' Hl Eys).
Qed.

Lemma py_iter_text_keyed (v : value) (l : list value) :
  text_keyed v = true -> py_iter v = Ok l -> forallb text_keyed l = true.
Proof.
  destruct v as [| | |s|l'|d]; try discriminate; cbn [py_iter text_keyed];
    intros Hv [= <-].
  - induction s as [|c s IH]; [reflexivity | exact IH].
  - exact Hv.
  - apply andb_true_iff in Hv as [Hv _].
    induction d as [|[k x] d IH]; [reflexivity|].
    cbn [forallb fst snd map] in *. apply andb_true_iff in Hv as [Hk Hd].
    apply andb_true_iff in Hk as [Hk _]. rewrite (IH Hd).
    destruct k; try discriminate. reflexivity.
Qed.

Lemma transform_jornada_text_keyed (j r : value) :
  text_keyed j = true -> transform_jornada j = Ok r -> text_keyed r = true.
Proof.
  intros Hj H. destruct j as [| | | | |jd]; try discriminate.
  unfold transform_jornada in H. rewrite !py_get_dict in H. cbn [bind] in H.
  apply bind_ok in H as [ml [Hml H]]. apply bind_ok in H as [ms [Hms H]].
  injection H as <-.
  assert (Hraw : text_keyed (get_or jd "matches" (VList [])) = true)
    by now apply text_keyed_get_or.
  pose proof (py_iter_text_keyed _ ml Hraw Hml) as Hl.
  pose proof (mapM_forallb transform_match text_keyed text_keyed ml ms
                transform_match_text_keyed Hl Hms) as Hout.
  cbn [text_keyed forallb fst snd is_text andb]. rewrite Hout.
  now rewrite !text_keyed_get_or.
Qed.

(** X8. What the Transformer answers on decoded JSON (objects with text
    keys, no key twice) is again such a structure, so its declaration is
    read back as exactly the rounds that were written. *)
Theorem transformed_rounds_round_trip (raw out : value) :
  text_keyed raw = true ->
  transform_matches raw = Ok out ->
  text_keyed out = true /\
  exists j, dumps out = Ok j /\ json_loads j = Ok out.
Proof.
  intros Hraw H. unfold transform_matches in H.
  apply bind_ok in H as [js [Hjs H]]. apply bind_ok in H as [res [Hres H]].
  injection H as <-.
  pose proof (py_iter_text_keyed raw js Hraw Hjs) as Hl.
  pose proof (mapM_forallb transform_jornada text_keyed text_keyed js res
                transform_jornada_text_keyed Hl Hres) as Hout.
  assert (Ht : text_keyed (VList res) = true) by exact Hout.
  split; [exact Ht|].
  destruct (text_keyed_as_json (VList res) Ht) as [Hj Ha].
  destruct (loads_dumps (VList res) Hj) as [j [Hd Hload]].
  exists j. split; [exact Hd|]. rewrite Hload. now rewrite Ha.
Qed.

(* ================================================================= *)
(** ** The two patterns *)

Lemma startswith_app_lit (s p q : str) :
  startswith s (p ++ q)
  = startswith s p && startswith (skipn (length p) s) q.
Proof.
  revert s. induction p as [|y p IH]; intros s; [reflexivity|].
  destruct s as [|x s]; [reflexivity|].
  cbn [app startswith length skipn]. now rewrite IH, andb_assoc.
Qed.

Lemma startswith_longer (s t p : str) :
  length p <= length s -> startswith (s ++ t) p = startswith s p.
Proof.
  revert s. induction p as [|y p IH]; intros s H; [reflexivity|].
  destruct s as [|x s]; cbn [length] in H; [lia|].
  cbn [app startswith]. rewrite IH; [reflexivity | lia].
Qed.

Lemma occurs_before_split (lit a b tail : str) :
  occurs_before lit (a ++ b) = false -> b <> [] ->
  startswith (b ++ lit ++ tail) lit = false.
Proof.
  intros H Hb. induction a as [|x a IH].
  - destruct b as [|c r]; [contradiction|].
    cbn [app occurs_before] in H. apply orb_false_iff in H as [H _].
    rewrite app_assoc, startswith_longer; [exact H|].
    rewrite length_app. lia.
  - cbn [app occurs_before] in H. apply orb_false_iff in H as [_ H]. now apply IH.
Qed.

Lemma occurs_split (lit a s : str) :
  occurs lit (a ++ s) = false -> startswith s lit = false.
Proof.
  induction a as [|x a IH]; intros H.
  - destruct s; cbn [app occurs] in H; now apply orb_false_iff in H as [H _].
  - cbn [app occurs] in H. apply orb_false_iff in H as [_ H]. now apply IH.
Qed.

Lemma two_lits_need_text (adv : bool) (l1 l2 : str) (q : regex) (s : str) :
  startswith s (l1 ++ l2) = false ->
  match_here adv (Lit l1 :: Lit l2 :: q) s = None.
Proof.
  intros H. rewrite startswith_app_lit in H. cbn [match_here].
  destruct (startswith s l1); [|reflexivity]. cbn [andb] in H. now rewrite H.
Qed.

Lemma lazy_any_first (k : bool -> str -> option (list str))
  (body rest : str) (ps : list str) :
  (forall a b adv, body = a ++ b -> b <> [] -> k adv (b ++ rest) = None) ->
  k false rest = Some ps ->
  forall taken,
    lazy_any k false taken (body ++ rest) = Some ((rev taken ++ body) :: ps).
Proof.
  intros Hno Hk. induction body as [|c r IH]; intros taken.
  - rewrite app_nil_r. cbn [app].
    destruct rest; cbn [lazy_any]; now rewrite Hk.
  - cbn [app lazy_any].
    assert (H0 : k false (c :: r ++ rest) = None)
      by (apply (Hno [] (c :: r) false eq_refl); discriminate).
    rewrite H0, IH.
    + cbn [rev]. now rewrite <- app_assoc.
    + intros a b adv -> Hb. apply (Hno (c :: a) b adv eq_refl Hb).
Qed.

Lemma lazy_any_pieces (k : bool -> str -> option (list str)) (s : str) :
  forall adv taken ps,
    lazy_any k adv taken s = Some ps ->
    exists x adv' s' ps', ps = x :: ps' /\ k adv' s' = Some ps'.
Proof.
  induction s as [|c r IH]; intros adv taken ps; cbn [lazy_any].
  - destruct (k adv []) as [ps'|] eqn:E; [|discriminate].
    intros [= <-]. now exists (rev taken), adv, [], ps'.
  - destruct (k adv (c :: r)) as [ps'|] eqn:E.
    + intros [= <-]. now exists (rev taken), adv, (c :: r), ps'.
    + apply IH.
Qed.

Lemma search_from_first (p : regex) (pre s : str) (ps : list str) :
  (forall a b, pre = a ++ b -> b <> [] -> match_here false p (b ++ s) = None) ->
  match_here false p s = Some ps ->
  forall skipped,
    search_from false p skipped (pre ++ s)
    = Some (rev skipped ++ pre, ps, skipn (length (concat ps)) s).
Proof.
  intros Hno Hm. induction pre as [|c r IH]; intros skipped.
  - rewrite app_nil_r. cbn [app].
    destruct s; cbn [search_from]; now rewrite Hm.
  - cbn [app search_from].
    assert (H0 : match_here false p (c :: r ++ s) = None)
      by (apply (Hno [] (c :: r) eq_refl); discriminate).
    rewrite H0, IH.
    + cbn [rev]. now rewrite <- app_assoc.
    + intros a b -> Hb. apply (Hno (c :: a) b eq_refl Hb).
Qed.

Lemma search_from_pieces (p : regex) (s : str) :
  forall adv skipped a ps r,
    search_from adv p skipped s = Some (a, ps, r) ->
    exists adv' s', match_here adv' p s' = Some ps.
Proof.
  induction s as [|c s IH]; intros adv skipped a ps r; cbn [search_from].
  - destruct (match_here adv p []) as [ps'|] eqn:E; [|discriminate].
    intros [= _ <- _]. now exists adv, [].
  - destruct (match_here adv p (c :: s)) as [ps'|] eqn:E.
    + intros [= _ <- _]. now exists adv, (c :: s).
    + apply IH.
Qed.

Lemma search_from_none (p : regex) (s : str) :
  forall skipped,
    search_from false p skipped s = None ->
    forall a s', s = a ++ s' -> match_here false p s' = None.
Proof.
  induction s as [|c s IH]; intros skipped; cbn [search_from].
  - destruct (match_here false p []) eqn:E; [discriminate|].
    intros _ a s' H. symmetry in H. apply app_eq_nil in H as [_ ->]. exact E.
  - destruct (match_here false p (c :: s)) eqn:E; [discriminate|].
    intros H a s' Hs. destruct a as [|x a].
    + cbn [app] in Hs. now subst s'.
    + injection Hs as _ Hs. exact (IH _ H a s' Hs).
Qed.

(** *** [const PT=(\{.*?\});] *)

Lemma pt_pattern_needs_intro (adv : bool) (s : str) :
  startswith s (py "const PT={") = false -> match_here adv pt_pattern s = None.
Proof.
  intros H. unfold pt_pattern. apply two_lits_need_text. exact H.
Qed.

Lemma pt_pattern_match (body post : str) :
  occurs_before (py "};") body = false ->
  match_here false pt_pattern
    (py "const PT=" ++ py "{" ++ body ++ py "};" ++ post)
  = Some [py "const PT="; py "{"; body; py "}"; py ";"].
Proof.
  intros Hb. unfold pt_pattern. cbn [match_here].
  rewrite startswith_app, skipn_length_app. cbn [andb].
  rewrite startswith_app, skipn_length_app.
  rewrite (lazy_any_first _ body (py "};" ++ post) [py "}"; py ";"]).
  - reflexivity.
  - intros a b adv -> Hne.
    change (match_here adv [Lit (py "}"); Lit (py ";")] (b ++ py "};" ++ post)
            = None).
    apply two_lits_need_text.
    exact (occurs_before_split (py "};") a b post Hb Hne).
  - reflexivity.
Qed.

Lemma pt_pattern_pieces (adv : bool) (s : str) (ps : list str) :
  match_here adv pt_pattern s = Some ps ->
  exists x, ps = [py "const PT="; py "{"; x; py "}"; py ";"].
Proof.
  unfold pt_pattern. cbn [match_here].
  destruct (startswith s (py "const PT=")); [|discriminate].
  destruct (startswith (skipn (length (py "const PT=")) s) (py "{"));
    [|discriminate].
  destruct (lazy_any _ _ _ _) as [qs|] eqn:E; [|discriminate].
  intros [= <-].
  apply lazy_any_pieces in E as [x [adv' [s' [ps' [-> E]]]]].
  cbn [match_here] in E.
  destruct (startswith s' (py "}")); [|discriminate].
  destruct (startswith (skipn (length (py "}")) s') (py ";")); [|discriminate].
  destruct (adv' && is_empty (py "}") && is_empty (py ";")); [discriminate|].
  injection E as <-. now exists x.
Qed.

(** Without a [const PT={] in the document there is nothing to read:
    the previous mapping is empty, whatever the decoder. *)
Lemma search_without_pt (html : str) :
  occurs (py "const PT={") html = false -> re_search pt_pattern html = None.
Proof.
  intros H. unfold re_search.
  destruct (search_from false pt_pattern [] html) as [[[a ps] r]|] eqn:E;
    [|reflexivity].
  exfalso. revert E. generalize (@nil N).
  induction html as [|c html IH]; intros skipped; cbn [search_from].
  - rewrite pt_pattern_needs_intro; [discriminate|].
    exact (occurs_split _ [] [] H).
  - rewrite pt_pattern_needs_intro; [|exact (occurs_split _ [] _ H)].
    apply IH. cbn [occurs] in H. now apply orb_false_iff in H as [_ H].
Qed.

(** X9. A document in which [const PT={] does not occur gives the empty
    previous mapping, whatever the decoder would answer. *)
Theorem extract_without_declaration (html : str) :
  occurs (py "const PT={") html = false ->
  extract_existing_pt html = VDict [].
Proof.
  intros H. unfold extract_existing_pt. now rewrite (search_without_pt html H).
Qed.

(** *** [const MINI_MATCHES=.*?(?=// ── STATE)] and its replacement *)

Lemma rounds_pattern_needs_intro (adv : bool) (s : str) :
  startswith s rounds_intro = false -> match_here adv rounds_pattern s = None.
Proof. intros H. unfold rounds_pattern. cbn [match_here]. now rewrite H. Qed.

Lemma rounds_pattern_first_marker (b tail : str) :
  occurs_before state_marker b = false ->
  match_here false rounds_pattern (rounds_intro ++ b ++ state_marker ++ tail)
  = Some [rounds_intro; b; []].
Proof.
  intros Hb. unfold rounds_pattern. cbn [match_here].
  rewrite startswith_app, skipn_length_app. cbn [andb].
  rewrite (lazy_any_first _ b (state_marker ++ tail) [[]]).
  - reflexivity.
  - intros a b' adv -> Hne.
    now rewrite (occurs_before_split state_marker a b' tail Hb Hne).
  - now rewrite startswith_app.
Qed.

Lemma parse_template_plain (repl : str) :
  plain_template repl = true ->
  parse_template 0 repl = Ok (map (fun c => TLit [c]) repl).
Proof.
  induction repl as [|c r IH]; [reflexivity|].
  cbn [plain_template forallb]. intros H. apply andb_true_iff in H as [Hc Hr].
  cbn [parse_template]. rewrite Hc, (IH Hr). reflexivity.
Qed.

Lemma expand_plain (repl whole : str) :
  expand_template (map (fun c => TLit [c]) repl) whole = repl.
Proof.
  unfold expand_template.
  induction repl as [|c r IH]; [reflexivity|].
  cbn [map flat_map app]. now rewrite IH.
Qed.

Lemma sub_walk_skip (p : regex) (repl : str -> str) (m tail : str) :
  sub_walk p repl (length m) (m ++ tail) = sub_walk p repl 0 tail.
Proof.
  induction m as [|x m IH]; [reflexivity|].
  cbn [length app sub_walk]. exact IH.
Qed.

Lemma sub_walk_keep (p : regex) (repl : str -> str) (a s : str) :
  (forall a1 a2, a = a1 ++ a2 -> a2 <> [] ->
                 match_here false p (a2 ++ s) = None) ->
  sub_walk p repl 0 (a ++ s) = a ++ sub_walk p repl 0 s.
Proof.
  induction a as [|x a IH]; intros Hno; [reflexivity|].
  assert (H0 : match_here false p (x :: a ++ s) = None)
    by (apply (Hno [] (x :: a) eq_refl); discriminate).
  cbn [app sub_walk]. rewrite H0. f_equal. apply IH.
  intros a1 a2 -> Hne. exact (Hno (x :: a1) a2 eq_refl Hne).
Qed.

(** X10. With a replacement text that holds no backslash, the substitution
    replaces exactly the text from the first [const MINI_MATCHES=] up to
    the first [// ── STATE] after it, and keeps the document before and from
    the marker on as it is (the introducer does not occur again). *)
Theorem re_sub_replaces_region (repl a b c : str) :
  plain_template repl = true ->
  occurs_before rounds_intro a = false ->
  occurs_before state_marker b = false ->
  occurs rounds_intro (state_marker ++ c) = false ->
  re_sub rounds_pattern repl (a ++ rounds_intro ++ b ++ state_marker ++ c)
  = Ok (a ++ repl ++ state_marker ++ c).
Proof.
  intros Hrepl Ha Hb Hc. unfold re_sub.
  rewrite (parse_template_plain repl Hrepl). cbn [bind]. f_equal.
  rewrite sub_walk_keep.
  2:{ intros a1 a2 -> Hne. apply rounds_pattern_needs_intro.
      exact (occurs_before_split rounds_intro a1 a2 _ Ha Hne). }
  f_equal.
  pose proof (rounds_pattern_first_marker b c Hb) as Hm.
  assert (Hlen : exists x m, rounds_intro ++ b = x :: m)
    by (now exists 99%N, (skipn 1 rounds_intro ++ b)).
  destruct Hlen as [x [m Hxm]].
  assert (Hs : rounds_intro ++ b ++ state_marker ++ c
               = x :: m ++ state_marker ++ c)
    by (now rewrite app_assoc, Hxm).
  assert (Hcat : concat [rounds_intro; b; []] = x :: m)
    by (cbn [concat]; now rewrite app_nil_r).
  rewrite Hs in *. cbn [sub_walk]. rewrite Hm, Hcat. cbn [length].
  rewrite expand_plain, sub_walk_skip. f_equal.
  apply sub_walk_no_match. intros a' s' Hsplit.
  apply rounds_pattern_needs_intro. rewrite Hsplit in Hc.
  exact (occurs_split _ _ _ Hc).
Qed.

Lemma letter_not_digit (e : char) :
  is_ascii_letter e = true -> (e =? 48)%N = false /\ is_digit e = false.
Proof.
  unfold is_ascii_letter, is_digit. intros H.
  apply orb_true_iff in H as [H | H]; apply andb_true_iff in H as [H1 H2];
    apply N.leb_le in H1; apply N.leb_le in H2;
    (split; [apply N.eqb_neq; lia|]);
    apply andb_false_iff; right; apply N.leb_gt; lia.
Qed.

Lemma getuntil_gt_app (s rest name : str) :
  getuntil_gt s = Some name ->
  getuntil_gt (s ++ rest) = Some name /\ S (length name) <= length s.
Proof.
  revert name. induction s as [|c r IH]; intros name; [discriminate|].
  cbn [getuntil_gt app]. destruct (c =? 62)%N.
  - intros [= <-]. split; [reflexivity | cbn [length]; lia].
  - destruct (getuntil_gt r) as [nm|] eqn:E; [|discriminate].
    cbn [option_map]. intros [= <-]. destruct (IH nm eq_refl) as [-> Hl].
    split; [reflexivity | cbn [length]; lia].
Qed.

(** A template that is parsed to its end is parsed the same way when more
    text follows it, as far as it goes: an error in the text that follows,
    which begins with a backslash, is met. *)
Lemma parse_template_extend (rest r0 : str) :
  rest = 92%N :: r0 ->
  parse_template 0 rest = Raise ReError ->
  forall n pre skip ps,
    length pre <= n -> skip <= length pre ->
    parse_template skip pre = Ok ps ->
    parse_template skip (pre ++ rest) = Raise ReError.
Proof.
  intros Hhead Hrest.
  induction n as [|n IH]; intros pre skip ps Hn Hs H.
  - destruct pre; [|cbn [length] in Hn; lia].
    destruct skip; [exact Hrest | cbn [length] in Hs; lia].
  - destruct pre as [|c r].
    { destruct skip; [exact Hrest | cbn [length] in Hs; lia]. }
    cbn [length] in Hn, Hs. destruct skip as [|k].
    2:{ cbn [app parse_template] in H |- *.
        apply (IH r k ps); [lia | lia | exact H]. }
    assert (Hgo : forall t ps',
               length t <= n -> parse_template 0 t = Ok ps' ->
               parse_template 0 (t ++ rest) = Raise ReError).
    { intros t ps' Ht Hp. apply (IH t 0 ps'); [exact Ht | lia | exact Hp]. }
    cbn [app parse_template] in H |- *.
    destruct (negb (c =? 92)%N).
    { apply bind_ok in H as [ps' [H _]].
      rewrite (Hgo r ps'); [reflexivity | lia | exact H]. }
    destruct r as [|e r1]; [discriminate|]. cbn [app length] in H, Hn |- *.
    destruct (e =? 103)%N.
    { destruct r1 as [|lt r2]; [discriminate|]. cbn [app length] in H, Hn |- *.
      destruct (lt =? 60)%N; [|discriminate].
      destruct (getuntil_gt r2) as [name|] eqn:Eg; [|discriminate].
      destruct (getuntil_gt_app r2 rest name Eg) as [-> Hl].
      destruct (negb (is_empty name) && forallb (fun d => (d =? 48)%N) name);
        [|discriminate].
      apply bind_ok in H as [ps' [H _]].
      rewrite (IH r2 (S (length name)) ps'); [reflexivity | lia | lia | exact H]. }
    destruct (e =? 48)%N.
    { destruct r1 as [|o1 r2]; cbn [app length] in H, Hn |- *.
      - rewrite Hhead. change (is_octal 92) with false. cbv iota.
        rewrite <- Hhead. now rewrite Hrest.
      - destruct (is_octal o1).
        + destruct r2 as [|o2 r3]; cbn [app length] in H, Hn |- *.
          * rewrite Hhead. change (is_octal 92) with false. cbv iota.
            rewrite <- Hhead. now rewrite Hrest.
          * destruct (is_octal o2).
            -- apply bind_ok in H as [ps' [H _]].
               rewrite (Hgo r3 ps'); [reflexivity | lia | exact H].
            -- apply bind_ok in H as [ps' [H _]].
               pose proof (Hgo (o2 :: r3) ps') as Hx. cbn [app length] in Hx.
               rewrite Hx; [reflexivity | lia | exact H].
        + apply bind_ok in H as [ps' [H _]].
          pose proof (Hgo (o1 :: r2) ps') as Hx. cbn [app length] in Hx.
          rewrite Hx; [reflexivity | lia | exact H]. }
    destruct (is_digit e).
    { destruct r1 as [|d2 [|d3 r3]]; try discriminate.
      cbn [app length] in H, Hn |- *.
      destruct (is_octal e && is_octal d2 && is_octal d3); [|discriminate].
      destruct (255 <? _)%N; [discriminate|].
      apply bind_ok in H as [ps' [H _]].
      rewrite (Hgo r3 ps'); [reflexivity | lia | exact H]. }
    destruct (template_escape e).
    { apply bind_ok in H as [ps' [H _]].
      rewrite (Hgo r1 ps'); [reflexivity | lia | exact H]. }
    destruct (is_ascii_letter e); [discriminate|].
    apply bind_ok in H as [ps' [H _]].
    rewrite (Hgo r1 ps'); [reflexivity | lia | exact H].
Qed.

Lemma parse_template_bad_letter (e : char) (post : str) :
  is_ascii_letter e = true -> template_escape e = None -> e <> 103%N ->
  parse_template 0 (92%N :: e :: post) = Raise ReError.
Proof.
  intros He Hesc Hg. destruct (letter_not_digit e He) as [H0 Hd].
  apply N.eqb_neq in Hg.
  cbn [parse_template N.eqb Pos.eqb negb].
  now rewrite Hg, H0, Hd, Hesc, He.
Qed.

(** X11. The replacement text is read as a template.  Where a beginning of
    it that is a complete template by itself is followed by a backslash and
    an ASCII letter that is no escape of the template language (any letter
    but a, b, f, g, n, r, t, v; so the [\u....] written for a control
    character), the substitution raises, on every document and for every
    pattern, before anything is searched. *)
Theorem re_sub_bad_escape (p : regex) (pre post s : str) (e : char)
  (ps : list tpart) :
  parse_template 0 pre = Ok ps ->
  is_ascii_letter e = true ->
  template_escape e = None ->
  e <> 103%N ->
  re_sub p (pre ++ 92%N :: e :: post) s = Raise ReError.
Proof.
  intros Hpre He Hesc Hg. unfold re_sub.
  rewrite (parse_template_extend (92%N :: e :: post) (e :: post) eq_refl
             (parse_template_bad_letter e post He Hesc Hg)
             (length pre) pre 0 ps (le_n _) (Nat.le_0_l _) Hpre).
  reflexivity.
Qed.

(* ================================================================= *)
(** ** extract_existing_pt with the JSON decoder *)

Lemma json_loads_object (s : str) (v : value) :
  json_loads (123%N :: s) = Ok v -> is_dict v = true.
Proof.
  unfold json_loads. intros H. apply bind_ok in H as [[x rest] [Hs H]].
  destruct (is_empty (skip_ws rest)); [|discriminate]. injection H as <-.
  replace (2 * length (123%N :: s) + 1) with (S (2 * length (123%N :: s)))
    in Hs by lia.
  cbn [skip_ws is_ws N.eqb Pos.eqb orb scan_once] in Hs.
  destruct (skip_ws s) as [|c' r']; [discriminate|].
  destruct (c' =? 125)%N.
  - now injection Hs as <- _.
  - apply bind_ok in Hs as [[ps rest'] [_ Hs]]. now injection Hs as <- _.
Qed.

Lemma removelast_snoc (s : str) (c : char) : removelast (s ++ [c]) = s.
Proof. now rewrite removelast_app, app_nil_r by discriminate. Qed.

Lemma occurs_before_drop (lit a b : str) :
  occurs_before lit (a ++ b) = false -> occurs_before lit b = false.
Proof.
  induction a as [|x a IH]; [trivial|].
  cbn [app occurs_before]. intros H. apply orb_false_iff in H as [_ H].
  now apply IH.
Qed.

(* ================================================================= *)
(** ** main: what a run can end in *)

Lemma fetch_all_events (w : world) (fetches : list event)
  (r : result (value * value * value * value)) :
  fetch_all w = (fetches, r) ->
  existsb touches_file fetches = false /\
  (forall x, r = Ok x ->
             fetches = map Fetch [url_mini_raw; url_pre_raw; url_mini_t; url_pre_t]
             /\ forall url, In url [url_mini_raw; url_pre_raw; url_mini_t; url_pre_t] ->
                            exists v, api w url = Ok v).
Proof.
  unfold fetch_all.
  destruct (api w url_mini_raw) as [a|] eqn:E1;
    [|intros [= <- <-]; split; [reflexivity | discriminate]].
  destruct (api w url_pre_raw) as [b|] eqn:E2;
    [|intros [= <- <-]; split; [reflexivity | discriminate]].
  destruct (api w url_mini_t) as [c|] eqn:E3;
    [|intros [= <- <-]; split; [reflexivity | discriminate]].
  destruct (api w url_pre_t) as [d|] eqn:E4;
    [|intros [= <- <-]; split; [reflexivity | discriminate]].
  intros [= <- <-]. split; [reflexivity|]. intros x _. split; [reflexivity|].
  intros url [H | [H | [H | [H | []]]]]; rewrite <- H;
    [exists a; exact E1 | exists b; exact E2 | exists c; exact E3
     | exists d; exact E4].
Qed.



Lemma re_sub_change_has_anchors (repl html new_html : str) :
  re_sub rounds_pattern repl html = Ok new_html ->
  new_html <> html -> has_anchors html.
Proof.
  intros H Hne.
  destruct (search_from false rounds_pattern [] html) as [f|] eqn:E.
  - apply search_from_found in E as [a [s' [adv' [ps [-> Hm]]]]].
    apply rounds_pattern_matches in Hm as [b [c ->]]. now exists a, b, c.
  - exfalso. apply Hne. unfold re_sub in H.
    apply bind_ok in H as [tp [_ H]]. injection H as <-.
    apply sub_walk_no_match. exact (search_from_none _ _ _ E).
Qed.

Lemma substitute_change_has_anchors (a b c d : value) (html new_html : str) :
  substitute a b c d html = Ok new_html ->
  new_html <> html -> has_anchors html.
Proof.
  intros H. unfold substitute in H.
  do 8 (apply bind_ok in H as [? [_ H]]).
  exact (re_sub_change_has_anchors _ _ _ H).
Qed.

(** X14. A run that ends with status 0 had all four requests answered and a
    document with both anchors; the text it wrote differs from the one it
    read, is what the document holds afterwards, and was written in one
    piece after the four requests and the reading. *)
Theorem main_success_means_rewritten (w : world) :
  exit_status (main w) = 0%Z ->
  exists html new_html,
    index_html w = Some html /\ has_anchors html /\
    new_html <> html /\ encodable new_html = true /\
    disk (main w) = Some new_html /\
    trace (main w)
    = Stdout :: map Fetch [url_mini_raw; url_pre_raw; url_mini_t; url_pre_t]
        ++ [OpenRead; OpenWrite; Write new_html; Stdout] /\
    forall url, In url [url_mini_raw; url_pre_raw; url_mini_t; url_pre_t] ->
                exists v, api w url = Ok v.
Proof.
  unfold main. destruct (fetch_all w) as [fetches r] eqn:Ef.
  destruct (fetch_all_events w fetches r Ef) as [_ Hall].
  destruct r as [[[[a b] c] d]|e]; [|discriminate].
  destruct (Hall _ eq_refl) as [-> Hapi].
  destruct (index_html w) as [html|]; [|discriminate].
  destruct (substitute a b c d html) as [new_html|e] eqn:Es; [|discriminate].
  destruct (str_eqb new_html html) eqn:Eq; [discriminate|].
  destruct (encodable new_html) eqn:Ee; [|discriminate].
  intros _. exists html, new_html.
  assert (Hne : new_html <> html).
  { intros Heq. apply str_eqb_eq in Heq. congruence. }
  repeat split; try assumption; try reflexivity.
  exact (substitute_change_has_anchors a b c d html new_html Es Hne).
Qed.


End Generate.

(* ================================================================= *)
(** * The program at concrete inputs *)

(** The first run on the sample data writes [document_after]. *)
Lemma first_run_writes_document :
  let o := main ascii_space_only ascii_upper_only json_loads
             {| api := sample_api; index_html := Some document_before |} in
  exit_status o = 0%Z /\ disk o = Some document_after.
Proof. vm_compute. split; reflexivity. Qed.

(** C1. The run repeated on the document it has just written, with the same
    answers of the API: the anchors are found, the substitution gives the
    document back, and the run ends with status 1 instead of 0. *)
Theorem rerun_on_same_data_exits_1 :
  let w := {| api := sample_api; index_html := Some document_after |} in
  re_search rounds_pattern document_after <> None /\
  substitute ascii_space_only ascii_upper_only json_loads
    raw_rounds (VList []) raw_tournament_85 raw_tournament_87 document_after
  = Ok document_after /\
  exit_status (main ascii_space_only ascii_upper_only json_loads w) = 1%Z /\
  disk (main ascii_space_only ascii_upper_only json_loads w) = Some document_after.
Proof.
  cbv zeta. split; [vm_compute; discriminate|].
  split; [vm_compute; reflexivity|]. split; vm_compute; reflexivity.
Qed.

(** C5. On the fallback path the group stored for a team is whatever the
    persisted entry holds under "g": a persisted "Z", a number, any value,
    is copied into the grouped mapping without the test for A, B, C, D that
    the groups path applies, where the display name "Z" gives "A" and every
    entry stored has one of the four letters.  So not every group value of
    the grouped mapping lies in the set of the four letters. *)
Theorem fallback_stores_unfiltered_group :
  build_pt ascii_space_only ascii_upper_only tournament_one_team persisted_Z
  = Ok (VDict [(VInt 5, pt_entry (text "X") (text "Z"))]) /\
  ~ letter_entry (pt_entry (text "X") (text "Z")) /\
  (forall g : value,
      build_pt ascii_space_only ascii_upper_only tournament_one_team
        (VDict [(text "5", pt_entry (text "X") g)])
      = Ok (VDict [(VInt 5, pt_entry (text "X") g)])) /\
  group_letter ascii_space_only ascii_upper_only (text "Z") = Ok (py "A") /\
  (forall td pt,
      from_groups ascii_space_only ascii_upper_only td = Ok pt ->
      Forall (fun kv => letter_entry (snd kv)) pt).
Proof.
  split; [vm_compute; reflexivity|]. split.
  { intros [n [g [E Hin]]]. injection E as _ <-.
    simpl in Hin. decompose [or] Hin; discriminate || contradiction. }
  split; [intros g; vm_compute; reflexivity|].
  split; [vm_compute; reflexivity|].
  exact (from_groups_letters ascii_space_only ascii_upper_only).
Qed.

(** The fallback example of the specification, with the persisted mapping
    keyed by the integer or by its text. *)
Example fallback_keeps_group_B :
  build_pt ascii_space_only ascii_upper_only tournament_one_team persisted_B
  = Ok (VDict [(VInt 5, pt_entry (text "X") (text "B"))]) /\
  build_pt ascii_space_only ascii_upper_only tournament_one_team
    (VDict [(text "5", pt_entry (text "X") (text "B"))])
  = Ok (VDict [(VInt 5, pt_entry (text "X") (text "B"))]) /\
  build_pt ascii_space_only ascii_upper_only tournament_one_team (VDict [])
  = Ok (VDict [(VInt 5, pt_entry (text "X") (text "A"))]).
Proof. repeat split; vm_compute; reflexivity. Qed.

Example sample_data_is_transformed :
  transform_matches raw_rounds = Ok example_rounds /\
  build_mt raw_tournament_85 = Ok example_mt.
Proof. split; vm_compute; reflexivity. Qed.

(** ** Instances of the theorems *)

Lemma fmt_date_truncates_or_blanks_witness :
  fmt_date (VStr (py "0001-01-01T00:00:00")) = Ok [] /\
  fmt_date (VStr (py "2024-03-10T10:00:00")) = Ok (py "2024-03-10T10:00").
Proof.
  destruct fmt_date_truncates_or_blanks as [_ H]. split.
  - apply (proj1 (H (py "0001-01-01T00:00:00"))).
    right; left. exists (py "-01-01T00:00:00"). reflexivity.
  - apply (proj2 (H (py "2024-03-10T10:00:00"))).
    + discriminate.
    + intros [r Hr]; discriminate.
    + intros [r Hr]; discriminate.
Defined.

Lemma fmt_date_short_unchanged_witness :
  fmt_date (VStr (py "2024-03-10")) = Ok (py "2024-03-10").
Proof.
  apply (proj2 (fmt_date_short_unchanged (py "2024-03-10"))).
  - discriminate.
  - intros [r Hr]; discriminate.
  - intros [r Hr]; discriminate.
  - vm_compute; lia.
Defined.

Lemma transform_matches_defaults_witness :
  exists out,
    transform_matches raw_rounds = Ok (VList out) /\
    Forall2 round_defaults
      (match raw_rounds with VList l => l | _ => [] end) out.
Proof. apply transform_matches_defaults. reflexivity. Defined.

Lemma group_letter_derivation_witness :
  group_letter ascii_space_only ascii_upper_only (VStr (py " grupo c "))
  = Ok (py "C") /\
  Forall (fun kv => letter_entry (snd kv))
    [(VInt 3, pt_entry (text "Team C") (text "B"))].
Proof.
  destruct (group_letter_derivation ascii_space_only ascii_upper_only)
    as [Hlast [_ Hgroups]].
  split.
  - apply (proj1 (Hlast (py " grupo c ") (py "grupo ") 99%N eq_refl)).
    simpl. tauto.
  - apply (proj1 (Hgroups tournament_with_groups VNone
                    [(VInt 3, pt_entry (text "Team C") (text "B"))] eq_refl)).
Defined.

Lemma blank_group_name_gets_A_witness :
  group_letter_of ascii_space_only ascii_upper_only
    (VDict [(text "name", text "   ")]) = Ok (py "A").
Proof.
  destruct (blank_group_name_gets_A ascii_space_only ascii_upper_only)
    as [_ H].
  refine (proj1 (H [(text "name", text "   ")] [] _)).
  right. exists (py "   "). split; reflexivity.
Defined.

Lemma fallback_reuses_previous_groups_witness :
  exists out,
    build_pt ascii_space_only ascii_upper_only tournament_one_team persisted_B
    = Ok (VDict out) /\
    fallback_inv persisted_B [team 5 "X"] out.
Proof.
  destruct (fallback_reuses_previous_groups ascii_space_only ascii_upper_only)
    as [H _].
  apply (H [(text "teams", VList [team 5 "X"])] persisted_B [team 5 "X"]).
  - repeat split.
  - reflexivity.
  - reflexivity.
  - right. eexists. reflexivity.
Defined.

Lemma fetch_failure_leaves_document_witness :
  let w := {| api := no_network; index_html := Some document_before |} in
  exit_status (main ascii_space_only ascii_upper_only json_loads w) = 1%Z /\
  disk (main ascii_space_only ascii_upper_only json_loads w) = Some document_before /\
  existsb touches_file (trace (main ascii_space_only ascii_upper_only json_loads w)) = false.
Proof.
  apply (fetch_failure_leaves_document ascii_space_only ascii_upper_only
           json_loads).
  exists url_mini_raw, URLError. split; [now left | reflexivity].
Defined.

Lemma missing_anchors_abort_witness :
  let w := {| api := sample_api; index_html := Some document_without_anchors |} in
  exit_status (main ascii_space_only ascii_upper_only json_loads w) = 1%Z /\
  disk (main ascii_space_only ascii_upper_only json_loads w) = Some document_without_anchors /\
  existsb writes_file (trace (main ascii_space_only ascii_upper_only json_loads w)) = false.
Proof.
  apply (missing_anchors_abort ascii_space_only ascii_upper_only json_loads).
  - reflexivity.
  - intros [a [b [c H]]]. apply (f_equal (@length N)) in H.
    rewrite !length_app in H.
    change (length document_without_anchors) with 13 in H.
    change (length rounds_intro) with 19 in H. lia.
Defined.

Lemma serialized_constants_round_trip_witness :
  (exists j, dumps example_pt = Ok j /\ json_loads j = Ok (as_json example_pt)) /\
  (exists j, dumps example_rounds = Ok j /\ json_loads j = Ok example_rounds).
Proof.
  destruct serialized_constants_round_trip as [_ [_ [_ [Hany [Htext _]]]]].
  split.
  - apply Hany. reflexivity.
  - apply Htext. reflexivity.
Defined.

(* ================================================================= *)
(** * Reading the persisted mapping back *)

(** X12. Whatever the document, the previous mapping read from it with the
    JSON decoder is an object: a declaration that does not decode, or that
    is missing, gives the empty one, and a text that begins with a brace
    decodes to nothing else. *)
Theorem extract_existing_pt_is_dict (html : str) :
  is_dict (extract_existing_pt json_loads html) = true.
Proof.
  unfold extract_existing_pt, re_search.
  destruct (search_from false pt_pattern [] html) as [[[a ps] r]|] eqn:E;
    [|reflexivity].
  destruct (search_from_pieces _ _ _ _ _ _ _ E) as [adv [s' Hm]].
  destruct (pt_pattern_pieces adv s' ps Hm) as [x ->].
  destruct (json_loads _) as [v|e] eqn:El; [|reflexivity].
  exact (json_loads_object _ v El).
Qed.

(** X13. The declaration [js_const] writes for a mapping is read back by
    the next run as that mapping with its keys as text: wherever the
    declaration stands in the document, provided no [const PT={] begins
    before it and the first [};] of the declaration is its end. *)
Theorem extract_reads_declaration (d : items) (decl pre post : str) :
  jsonable (VDict d) = true ->
  js_const "PT" (VDict d) = Ok decl ->
  occurs_before (py "const PT={") pre = false ->
  occurs_before (py "};") (removelast (removelast decl)) = false ->
  extract_existing_pt json_loads (pre ++ decl ++ post) = as_json (VDict d).
Proof.
  intros Hj Hdecl Hpre Hbody.
  destruct (loads_dumps (VDict d) Hj) as [j [Hd Hload]].
  rewrite (js_const_form "PT" (VDict d) j Hd) in Hdecl.
  pose proof Hd as Hd'. rewrite dumps_dict in Hd'.
  apply bind_ok in Hd' as [parts [_ Hparts]]. injection Hparts as Hparts.
  set (body := join [44%N] parts) in *.
  assert (Hjb : j = py "{" ++ body ++ py "}") by (now rewrite <- Hparts).
  assert (Htext : decl = (py "const PT={" ++ body) ++ [125%N] ++ [59%N]).
  { assert (H : py "const " ++ py "PT" ++ py "=" ++ j ++ py ";" = decl)
      by congruence.
    rewrite <- H, Hjb, <- !app_assoc. reflexivity. }
  rewrite Htext in Hbody.
  rewrite app_assoc, removelast_snoc, removelast_snoc in Hbody.
  apply occurs_before_drop in Hbody.
  assert (Hdoc : pre ++ decl ++ post
                 = pre ++ py "const PT=" ++ py "{" ++ body ++ py "};" ++ post)
    by (rewrite Htext, <- !app_assoc; reflexivity).
  rewrite Hdoc. unfold extract_existing_pt, re_search.
  rewrite (search_from_first pt_pattern pre _ _
             ltac:(intros a b -> Hne; apply pt_pattern_needs_intro;
                   exact (occurs_before_split (py "const PT={") a b
                            (body ++ py "};" ++ post) Hpre Hne))
             (pt_pattern_match body post Hbody)).
  change (group1 [py "const PT="; py "{"; body; py "}"; py ";"])
    with (py "{" ++ body ++ py "}" ++ []).
  now rewrite app_nil_r, <- Hjb, Hload.
Qed.

(* ================================================================= *)
(** * Instances of the further properties *)

Lemma fmt_date_raises_iff_witness :
  fmt_date (VInt 20240310) = Raise AttributeError.
Proof.
  apply (proj2 (fmt_date_raises_iff (VInt 20240310) AttributeError)).
  repeat split.
Defined.

Lemma transform_match_accepts_iff_witness :
  exists r, transform_match (VDict [(text "status", VInt 1)]) = Ok r.
Proof.
  apply (proj2 (transform_match_accepts_iff (VDict [(text "status", VInt 1)]))).
  reflexivity.
Defined.

Lemma build_mt_lists_teams_witness :
  build_mt raw_tournament_85
  = Ok (VDict [(VInt 1, text "Team A"); (VInt 2, text "Team B")]).
Proof.
  apply (build_mt_lists_teams
           [(text "teams", VList [team 1 "Team A"; team 2 "Team B"])]
           [team 1 "Team A"; team 2 "Team B"]); reflexivity.
Defined.

Lemma build_mt_rejects_malformed_witness :
  exists e,
    build_mt (VDict [(text "teams", VList [team 1 "Team A"; nameless_team 2])])
    = Raise e.
Proof.
  apply (build_mt_rejects_malformed
           [(text "teams", VList [team 1 "Team A"; nameless_team 2])]
           [team 1 "Team A"; nameless_team 2] (nameless_team 2)).
  - reflexivity.
  - right. now left.
  - reflexivity.
Defined.

Lemma build_pt_fallback_rejects_malformed_witness :
  exists e,
    build_pt ascii_space_only ascii_upper_only
      (VDict [(text "teams", VList [team 1 "Team A"; nameless_team 2])])
      persisted_B
    = Raise e.
Proof.
  apply (build_pt_fallback_rejects_malformed ascii_space_only ascii_upper_only
           [(text "teams", VList [team 1 "Team A"; nameless_team 2])]
           persisted_B [team 1 "Team A"; nameless_team 2] (nameless_team 2)).
  - repeat split.
  - reflexivity.
  - right. now left.
  - reflexivity.
Defined.

Lemma build_pt_rejects_untrimmable_name_witness :
  exists e,
    build_pt ascii_space_only ascii_upper_only
      (VDict [(text "groups",
               VList [VDict [(text "name", VNone);
                             (text "teams", VList [team 3 "Team C"])]])])
      VNone
    = Raise e.
Proof.
  apply (build_pt_rejects_untrimmable_name ascii_space_only ascii_upper_only
           [(text "groups",
             VList [VDict [(text "name", VNone);
                           (text "teams", VList [team 3 "Team C"])]])]
           VNone
           [VDict [(text "name", VNone); (text "teams", VList [team 3 "Team C"])]]
           (VDict [(text "name", VNone); (text "teams", VList [team 3 "Team C"])])).
  - reflexivity.
  - now left.
  - reflexivity.
Defined.

Lemma transformed_rounds_round_trip_witness :
  text_keyed example_rounds = true /\
  exists j, dumps example_rounds = Ok j /\ json_loads j = Ok example_rounds.
Proof.
  apply (transformed_rounds_round_trip raw_rounds example_rounds); reflexivity.
Defined.

Lemma extract_without_declaration_witness :
  extract_existing_pt json_loads document_without_anchors = VDict [].
Proof.
  apply (extract_without_declaration json_loads document_without_anchors).
  vm_compute. reflexivity.
Defined.

Lemma re_sub_replaces_region_witness :
  re_sub rounds_pattern (py "const MINI_MATCHES=[1];")
    (py "<script>" ++ rounds_intro ++ py "[];" ++ state_marker ++ py "</script>")
  = Ok (py "<script>" ++ py "const MINI_MATCHES=[1];" ++ state_marker
          ++ py "</script>").
Proof.
  apply (re_sub_replaces_region (py "const MINI_MATCHES=[1];") (py "<script>")
           (py "[];") (py "</script>")); vm_compute; reflexivity.
Defined.

Lemma re_sub_bad_escape_witness :
  re_sub rounds_pattern (pyq "const PT={'3':{'n':'\n\u0001','g':'B'}};")
    document_before
  = Raise ReError.
Proof.
  apply (re_sub_bad_escape rounds_pattern (pyq "const PT={'3':{'n':'\n")
           (pyq "0001','g':'B'}};") document_before 117%N
           (map (fun c => TLit [c]) (pyq "const PT={'3':{'n':'")
              ++ [TLit [10%N]]));
    [vm_compute; reflexivity | reflexivity | reflexivity | discriminate].
Defined.

Lemma extract_reads_declaration_witness :
  extract_existing_pt json_loads
    (py "<script>" ++ pyq "const PT={'3':{'n':'Team C','g':'B'}};"
       ++ py "</script>")
  = VDict [(text "3", pt_entry (text "Team C") (text "B"))].
Proof.
  apply (extract_reads_declaration
           [(VInt 3, pt_entry (text "Team C") (text "B"))]
           (pyq "const PT={'3':{'n':'Team C','g':'B'}};")
           (py "<script>") (py "</script>")); vm_compute; reflexivity.
Defined.

Lemma main_success_means_rewritten_witness :
  let w := {| api := sample_api; index_html := Some document_before |} in
  exists html new_html,
    index_html w = Some html /\ has_anchors html /\
    new_html <> html /\ encodable new_html = true /\
    disk (main ascii_space_only ascii_upper_only json_loads w) = Some new_html /\
    trace (main ascii_space_only ascii_upper_only json_loads w)
    = Stdout :: map Fetch [url_mini_raw; url_pre_raw; url_mini_t; url_pre_t]
        ++ [OpenRead; OpenWrite; Write new_html; Stdout] /\
    forall url, In url [url_mini_raw; url_pre_raw; url_mini_t; url_pre_t] ->
                exists v, api w url = Ok v.
Proof.
  cbv zeta.
  apply (main_success_means_rewritten ascii_space_only ascii_upper_only
           json_loads {| api := sample_api; index_html := Some document_before |}).
  vm_compute. reflexivity.
Defined.

